(** * political-reps-api: request resolution, search and rate limiting

    A shallow embedding of the Express router of
    [backend/routes/representatives.js], the middleware of
    [backend/middleware/validation.js] and the three tables of the schema,
    followed by the properties of the ZIP lookup, the detail lookup, the
    search and the rate limiter.

    Modelling conventions.
    - A JavaScript string is a [string]: the octets of its UTF-8 encoding,
      so that ASCII text is itself.  A missing property ([undefined]) is
      [None].  [req.query] is a finite map from keys to string values
      (repeated keys, which the query parser turns into arrays, are not
      modelled).
    - JavaScript numbers that the code uses as integers (timestamps,
      identifiers, limits) are [Z]; [NaN] is [None].
    - The storage engine is a value of type [Database]; each SQL statement of
      the source is a function on it that follows the clauses of the
      statement (FROM/JOIN, WHERE, window function, DISTINCT, ORDER BY,
      LIMIT/OFFSET) in the order in which SQL evaluates them.  The order of
      rows that SQL leaves unspecified (ties of ORDER BY) is fixed by a
      stable sort; case folding is ASCII.
    - [ORDER BY] on a text column follows the collation of the database.
      The schema names none, so it is the default of the database, which
      the repository does not choose: the collation is a component of
      [Database], and the properties of the order of names hold for every
      collation.
    - A statement can fail on its parameters (a value that is not an
      integer of the column's type, a negative LIMIT); connectivity
      failures of the pool are not modelled.
    - Every statement sent to the pool is recorded in a trace, so that
      "before any storage access" is a statement about the trace.
    - [new Date().toISOString()] fields of the bodies are left out. *)

From Stdlib Require Import ZArith Lia Ascii String.
From stdpp Require Import base decidable option list sorting strings gmap fin_maps.

Local Open Scope string_scope.
Local Open Scope Z_scope.

(* ================================================================== *)
(** * JavaScript helpers used by the handlers *)
(* ================================================================== *)

Module JS.

Definition code (c : ascii) : Z := Z.of_N (Ascii.N_of_ascii c).

Definition in_range (lo hi : Z) (c : ascii) : bool :=
  (lo <=? code c) && (code c <=? hi).

(** [\d] of a regular expression without the unicode flag. *)
Definition is_digit (c : ascii) : bool := in_range 48 57 c.

(** White space and line terminators that [parseInt] skips (ASCII part). *)
Definition is_white (c : ascii) : bool :=
  in_range 9 13 c || (code c =? 32).

Fixpoint all_chars (p : ascii → bool) (s : string) : bool :=
  match s with
  | EmptyString => true
  | String c r => p c && all_chars p r
  end.

Fixpoint trimStart (s : string) : string :=
  match s with
  | String c r => if is_white c then trimStart r else s
  | EmptyString => s
  end.

(** Value of a character as a digit of a radix up to 36. *)
Definition digit_value (c : ascii) : option Z :=
  if in_range 48 57 c then Some (code c - 48)
  else if in_range 97 122 c then Some (code c - 87)
  else if in_range 65 90 c then Some (code c - 55)
  else None.

(** Longest prefix of radix-[R] digits, read as a number; [None] when the
    prefix is empty. *)
Fixpoint digits (R : Z) (acc : option Z) (s : string) : option Z :=
  match s with
  | EmptyString => acc
  | String c r =>
      match digit_value c with
      | Some d =>
          if d <? R then digits R (Some (R * default 0 acc + d)) r else acc
      | None => acc
      end
  end.

(** [parseInt(s)] with no radix argument: skip white space, read a sign,
    read a [0x] prefix, then the longest digit prefix.  [None] is [NaN].
    The result is the exact integer (no rounding to a double). *)
Definition parseInt (s : string) : option Z :=
  let s := trimStart s in
  let '(sign, s) :=
    match s with
    | String "-" r => (-1, r)
    | String "+" r => (1, r)
    | _ => (1, s)
    end in
  let '(R, s) :=
    match s with
    | String "0" (String "x" r) => (16, r)
    | String "0" (String "X" r) => (16, r)
    | _ => (10, s)
    end in
  match digits R None s with
  | Some n => Some (sign * n)
  | None => None
  end.

Definition upper_char (c : ascii) : ascii :=
  if in_range 97 122 c then Ascii.ascii_of_N (Ascii.N_of_ascii c - 32) else c.

Definition lower_char (c : ascii) : ascii :=
  if in_range 65 90 c then Ascii.ascii_of_N (Ascii.N_of_ascii c + 32) else c.

Fixpoint toLowerCase (s : string) : string :=
  match s with
  | EmptyString => EmptyString
  | String c r => String (lower_char c) (toLowerCase r)
  end.

Fixpoint toUpperCase (s : string) : string :=
  match s with
  | EmptyString => EmptyString
  | String c r => String (upper_char c) (toUpperCase r)
  end.

(** The double quote character, as a string. *)
Definition quote : string := String (Ascii.ascii_of_N 34) EmptyString.

(** ** [decodeURIComponent] *)

Definition hex_value (c : ascii) : option Z :=
  match digit_value c with
  | Some d => if d <? 16 then Some d else None
  | None => None
  end.

(** The octet that two hexadecimal digits write. *)
Definition octet (h l : ascii) : option Z :=
  match hex_value h, hex_value l with
  | Some hi, Some lo => Some (16 * hi + lo)
  | _, _ => None
  end.

Definition chr (b : Z) : ascii := Ascii.ascii_of_N (Z.to_N b).

(** The octets that follow the first octet [b] of the UTF-8 encoding of a
    code point, each given by the range it is taken from: none after an
    octet below 128; the ranges leave out the encodings that are too
    long, the surrogates and the code points above 10FFFF.  [None]: no
    encoding starts with [b]. *)
Definition continuation (b : Z) : option (list (Z * Z)) :=
  if b <? 128 then Some []
  else if (194 <=? b) && (b <=? 223) then Some [(128, 191)]
  else if b =? 224 then Some [(160, 191); (128, 191)]
  else if b =? 237 then Some [(128, 159); (128, 191)]
  else if (225 <=? b) && (b <=? 239) then Some [(128, 191); (128, 191)]
  else if b =? 240 then Some [(144, 191); (128, 191); (128, 191)]
  else if (241 <=? b) && (b <=? 243) then
    Some [(128, 191); (128, 191); (128, 191)]
  else if b =? 244 then Some [(128, 143); (128, 191); (128, 191)]
  else None.

(** The decoding of a string in which the octets of [expect] are still to
    come, each as an escape: a percent sign and two hexadecimal digits
    stand for an octet, every other character for itself.  [None] is the
    [URIError] of a percent sign without two hexadecimal digits, or of
    escaped octets that are not the encoding of a code point. *)
Fixpoint decode (expect : list (Z * Z)) (s : string) : option string :=
  match s with
  | EmptyString =>
      match expect with
      | [] => Some EmptyString
      | _ => None
      end
  | String "%" (String h (String l rest)) =>
      match octet h l with
      | Some b =>
          match expect with
          | (lo, hi) :: more =>
              if (lo <=? b) && (b <=? hi)
              then String (chr b) <$> decode more rest
              else None
          | [] =>
              match continuation b with
              | Some more => String (chr b) <$> decode more rest
              | None => None
              end
          end
      | None => None
      end
  | String "%" _ => None
  | String c rest =>
      match expect with
      | [] => String c <$> decode [] rest
      | _ => None
      end
  end.

Definition decodeURIComponent (s : string) : option string := decode [] s.

(** Truthiness of an optional string: [undefined] and the empty string are falsy. *)
Definition truthy (v : option string) : bool :=
  match v with
  | Some (String _ _) => true
  | _ => false
  end.

(** [Math.ceil(a / b)] for integers and [b > 0]. *)
Definition ceil_div (a b : Z) : Z := - ((- a) / b).

End JS.

(* ================================================================== *)
(** * The persisted schema ([database/schema.sql]) *)
(* ================================================================== *)

(** [CHECK (branch IN ('federal', 'state', 'local'))]. *)
Inductive Branch := federal | state | local.

Global Instance Branch_eq_dec : EqDecision Branch.
Proof. solve_decision. Defined.

Definition branch_text (b : Branch) : string :=
  match b with
  | federal => "federal"
  | state => "state"
  | local => "local"
  end.

(** Columns of [geography]; the field prefix is the alias the statements
    use ([g.state], [r.id], [rgm.geography_id]).  Nullable columns are
    options; DECIMAL and DATE/TIMESTAMP values are kept as their text. *)
Record Geography := {
  g_id : Z;
  g_zip_code : string;
  g_city : option string;
  g_state : string;
  g_state_name : option string;
  g_county : option string;
  g_congressional_district : option string;
  g_latitude : option string;
  g_longitude : option string
}.

Record Representative := {
  r_id : Z;
  r_name : string;
  r_title : string;
  r_party : option string;
  r_branch : Branch;
  r_office_type : option string;
  r_phone : option string;
  r_email : option string;
  r_website : option string;
  r_photo_url : option string;
  r_address_line1 : option string;
  r_address_line2 : option string;
  r_address_city : option string;
  r_address_state : option string;
  r_address_zip : option string;
  r_term_start : option string;
  r_term_end : option string;
  r_is_active : option bool;
  r_created_at : option string;
  r_updated_at : option string
}.

Record RepGeographyMap := {
  rgm_id : Z;
  rgm_representative_id : Z;
  rgm_geography_id : Z;
  rgm_jurisdiction_level : Branch
}.

(** The text columns are declared without a COLLATE clause: comparing
    their values for [ORDER BY] follows the default collation of the
    database, fixed when the database is created.  [collate a b] says that
    [a] sorts no later than [b]; a collation compares any two texts and is
    transitive (texts that differ can sort as equals). *)
Record Collation := {
  collate : string → string → bool;
  collate_total a b : collate a b = true ∨ collate b a = true;
  collate_trans a b c :
    collate a b = true → collate b c = true → collate a c = true
}.

Record Database := {
  collation : Collation;
  geography : list Geography;
  representatives : list Representative;
  rep_geography_map : list RepGeographyMap
}.

(** Keys of the schema: the primary keys, [zip_code UNIQUE],
    [UNIQUE(representative_id, geography_id)] and the two foreign keys. *)
Record constraints (db : Database) : Prop := {
  geography_pkey : NoDup (g_id <$> geography db);
  geography_zip_key : NoDup (g_zip_code <$> geography db);
  representatives_pkey : NoDup (r_id <$> representatives db);
  map_pair_key :
    NoDup ((λ m, (rgm_representative_id m, rgm_geography_id m))
             <$> rep_geography_map db);
  map_representative_fkey :
    ∀ m, m ∈ rep_geography_map db →
         rgm_representative_id m ∈ r_id <$> representatives db;
  map_geography_fkey :
    ∀ m, m ∈ rep_geography_map db →
         rgm_geography_id m ∈ g_id <$> geography db
}.

(* ================================================================== *)
(** * Response bodies *)
(* ================================================================== *)

Module Http.

(** One entry of the [details] array of a 422 body. *)
Record ErrorDetail := {
  field : string;
  detail_message : string;
  value : option string
}.

(** [{error, message?, suggestion?, details?, retryAfter?}]. *)
Record ErrorBody := {
  error : string;
  message : option string;
  suggestion : option string;
  details : option (list ErrorDetail);
  retryAfter : option Z
}.

Definition error_only (e : string) : ErrorBody :=
  {| error := e; message := None; suggestion := None;
     details := None; retryAfter := None |}.

Definition error_message (e m : string) : ErrorBody :=
  {| error := e; message := Some m; suggestion := None;
     details := None; retryAfter := None |}.

Record Contact := {
  phone : option string;
  email : option string;
  website : option string
}.

Record Address := {
  line1 : option string;
  line2 : option string;
  city : option string;
  address_state : option string;
  zip : option string
}.

Record Term := {
  term_start : option string;
  term_end : option string
}.

(** An element of [representatives.all] of the ZIP lookup. *)
Record Rep := {
  id : Z;
  name : string;
  title : string;
  party : option string;
  branch : Branch;
  office_type : option string;
  contact : Contact;
  address : option Address;
  photo_url : option string;
  term : Term;
  is_active : option bool;
  jurisdiction_level : Branch
}.

Record Location := {
  loc_city : option string;
  loc_state : string;
  loc_state_name : option string;
  loc_county : option string;
  loc_congressional_district : option string;
  coordinates : option (string * string)
}.

Record ByBranch := {
  by_federal : list Rep;
  by_state : list Rep;
  by_local : list Rep
}.

Record ZipBody := {
  zb_zip : string;
  location : Location;
  count : nat;
  by_branch : ByBranch;
  all : list Rep;
  meta_include_inactive : bool;
  meta_branch_filter : string
}.

Record Area := {
  area_zip_code : option string;
  area_city : option string;
  area_state : option string;
  area_congressional_district : option string
}.

Record DetailBody := {
  d_id : Z;
  d_name : string;
  d_title : string;
  d_party : option string;
  d_branch : Branch;
  d_office_type : option string;
  d_contact : Contact;
  d_address : option Address;
  d_photo_url : option string;
  d_term : Term;
  d_is_active : option bool;
  served_areas : list Area;
  created_at : option string;
  updated_at : option string
}.

Record SearchResult := {
  s_id : Z;
  s_name : string;
  s_title : string;
  s_party : option string;
  s_branch : Branch;
  s_office_type : option string;
  s_contact : Contact;
  s_is_active : option bool
}.

Record Pagination := {
  total : Z;
  limit : option Z;
  offset : option Z;
  has_more : bool
}.

Record Criteria := {
  c_name : option string;
  c_party : option string;
  c_branch : option string;
  c_state : option string
}.

Record SearchBody := {
  results : list SearchResult;
  pagination : Pagination;
  search_criteria : Criteria
}.

Inductive Body :=
| Error (e : ErrorBody)
| ZipLookup (b : ZipBody)
| Detail (b : DetailBody)
| Search (b : SearchBody).

(** [res.status(s).json(b)]; [res.json(b)] has status 200. *)
Record Response := { status : Z; body : Body }.

Definition json (b : Body) : Response := {| status := 200; body := b |}.

End Http.

(* ================================================================== *)
(** * [backend/middleware/validation.js] *)
(* ================================================================== *)

Module Validation.

(** A key of a Joi object schema over string values: whether the key is
    required, the message of [any.required], and the rule on a present
    value, which gives the message of the rule it breaks. *)
Record Key := {
  key : string;
  required : bool;
  required_message : string;
  rule : string → option string
}.

Definition Schema := list Key.

(** [/^\d{5}$/] *)
Definition five_digits (s : string) : bool :=
  (String.length s =? 5)%nat && JS.all_chars JS.is_digit s.

(** [Joi.string().pattern(/^\d{5}$/).required().messages({...})]; the
    empty string is refused by [Joi.string()] itself. *)
Definition zip_rule (s : string) : option string :=
  match s with
  | EmptyString =>
      Some (JS.quote ++ "zip" ++ JS.quote ++ " is not allowed to be empty")
  | _ => if five_digits s then None
         else Some "ZIP code must be exactly 5 digits"
  end.

Definition zipQuery : Schema :=
  [ {| key := "zip"; required := true;
       required_message := "ZIP code is required";
       rule := zip_rule |} ].

(** The schemas by name.  [representativeBody] and [geographyBody]
    validate request bodies of write endpoints, which this router does
    not have; they are not modelled. *)
Definition schemas : gmap string Schema := {[ "zipQuery" := zipQuery ]}.

Definition check_key (data : gmap string string) (k : Key)
  : list Http.ErrorDetail :=
  match data !! key k with
  | None =>
      if required k
      then [ {| Http.field := key k;
                Http.detail_message := required_message k;
                Http.value := None |} ]
      else []
  | Some v =>
      match rule k v with
      | Some m => [ {| Http.field := key k; Http.detail_message := m;
                       Http.value := Some v |} ]
      | None => []
      end
  end.

(** [schema.validate(data, {abortEarly: false, stripUnknown: true,
    convert: true})]: every violation is collected; the value keeps the
    keys of the schema only. *)
Definition validate (schema : Schema) (data : gmap string string)
  : list Http.ErrorDetail * gmap string string :=
  (schema ≫= check_key data,
   filter (λ kv, kv.1 ∈ key <$> schema) data).

Inductive Outcome :=
| Next (query : gmap string string)
| Respond (r : Http.Response).

(** [createValidator(schemaName, 'query')] applied to [req.query]: on
    success [req.query] is replaced by the validated value. *)
Definition createValidator (schemaName : string)
    (query : gmap string string) : Outcome :=
  match schemas !! schemaName with
  | None =>
      Respond {| Http.status := 500;
                 Http.body := Http.Error (Http.error_only
                   "Internal server error - invalid validation schema") |}
  | Some schema =>
      let '(error, value) := validate schema query in
      match error with
      | _ :: _ =>
          Respond {| Http.status := 422;
                     Http.body := Http.Error
                       {| Http.error := "Validation failed";
                          Http.message := None;
                          Http.suggestion := None;
                          Http.details := Some error;
                          Http.retryAfter := None |} |}
      | [] => Next value
      end
  end.

(** ** Rate limiting *)

Record Options := {
  windowMs : Z;
  maxRequests : Z;
  message : string
}.

(** The defaults of the destructuring of [options]. *)
Definition default_options : Options :=
  {| windowMs := 15 * 60 * 1000; maxRequests := 100;
     message := "Too many requests, please try again later" |}.

Inductive Verdict :=
| Accept
| Reject (r : Http.Response).

(** The middleware returned by [rateLimit(options)], run for the client
    key [clientIP] at time [now] on the module-level [rateLimitStore]. *)
Definition rateLimit (options : Options) (clientIP : string) (now : Z)
    (rateLimitStore : gmap string (list Z))
  : Verdict * gmap string (list Z) :=
  let windowStart := now - windowMs options in
  let clientRequests := default [] (rateLimitStore !! clientIP) in
  let validRequests :=
    filter (λ timestamp, windowStart < timestamp) clientRequests in
  if decide (maxRequests options ≤ Z.of_nat (length validRequests)) then
    (Reject {| Http.status := 429;
               Http.body := Http.Error
                 {| Http.error := message options;
                    Http.message := None;
                    Http.suggestion := None;
                    Http.details := None;
                    Http.retryAfter :=
                      Some (JS.ceil_div (windowMs options) 1000) |} |},
     rateLimitStore)
  else
    (Accept, <[clientIP := (validRequests ++ [now])%list]> rateLimitStore).

(** Successive calls of the middleware for one client key at the given
    times: the verdicts, in order, and the final store. *)
Fixpoint calls (options : Options) (clientIP : string) (times : list Z)
    (rateLimitStore : gmap string (list Z))
  : list Verdict * gmap string (list Z) :=
  match times with
  | [] => ([], rateLimitStore)
  | now :: later =>
      let '(v, store') := rateLimit options clientIP now rateLimitStore in
      let '(vs, store'') := calls options clientIP later store' in
      (v :: vs, store'')
  end.

End Validation.

(* ================================================================== *)
(** * The statements sent through [backend/models/database.js] *)
(* ================================================================== *)

Module Storage.

(** ** Text comparison *)

(** [a <= b] for two values of a text column. *)
Definition text_le (c : Collation) (a b : string) : Prop :=
  collate c a b = true.

Global Instance text_le_dec c : RelDecision (text_le c).
Proof. intros a b. unfold text_le. apply _. Defined.

(** [s ILIKE p]: [%] matches any sequence, [_] any one character, a
    backslash takes the next character literally; other characters match
    up to (ASCII) case. *)
Definition same_letter (c d : ascii) : bool :=
  bool_decide (JS.lower_char c = JS.lower_char d).

Fixpoint ilike_pattern (p : string) : string → bool :=
  match p with
  | EmptyString =>
      λ s, match s with EmptyString => true | _ => false end
  | String "%" p' =>
      let rest := ilike_pattern p' in
      fix any (s : string) : bool :=
        rest s || match s with
                  | EmptyString => false
                  | String _ s' => any s'
                  end
  | String "_" p' =>
      λ s, match s with
           | String _ s' => ilike_pattern p' s'
           | EmptyString => false
           end
  | String "\" p' =>
      match p' with
      | String c p'' =>
          λ s, match s with
               | String d s' => same_letter c d && ilike_pattern p'' s'
               | EmptyString => false
               end
      | EmptyString => λ _, false
      end
  | String c p' =>
      λ s, match s with
           | String d s' => same_letter c d && ilike_pattern p' s'
           | EmptyString => false
           end
  end.

Definition ilike (s p : string) : bool := ilike_pattern p s.

(** ** Joins *)

Definition inner_join {A B} (on : A → B → bool) (l : list A) (r : list B)
  : list (A * B) :=
  a ← l; b ← r; if on a b then [(a, b)] else [].

(** Every left row is kept; one without a partner is padded with NULL. *)
Definition left_join {A B} (on : A → B → bool) (l : list A) (r : list B)
  : list (A * option B) :=
  a ← l;
  match filter (λ b, on a b = true) r with
  | [] => [(a, None)]
  | bs => (λ b, (a, Some b)) <$> bs
  end.

(** [representatives r LEFT JOIN rep_geography_map rgm ON r.id =
    rgm.representative_id LEFT JOIN geography g ON rgm.geography_id =
    g.id] *)
Definition Joined : Type :=
  Representative * option RepGeographyMap * option Geography.

Definition joined (db : Database) : list Joined :=
  left_join
    (λ '(_, rgm) g,
       match rgm with
       | Some rgm => bool_decide (rgm_geography_id rgm = g_id g)
       | None => false
       end)
    (left_join
       (λ r rgm, bool_decide (r_id r = rgm_representative_id rgm))
       (representatives db) (rep_geography_map db))
    (geography db).

(** ** The conditions that the handlers append to a WHERE clause *)

Inductive Condition :=
| is_active_true                  (* AND r.is_active = true *)
| name_ilike (pattern : string)   (* AND r.name ILIKE $n *)
| party_ilike (pattern : string)  (* AND r.party ILIKE $n *)
| branch_eq (b : string)          (* AND r.branch = $n *)
| state_eq (s : string).          (* AND g.state = $n *)

(** A condition holds when it evaluates to true; on NULL it does not. *)
Definition holds (r : Representative) (g : option Geography)
    (c : Condition) : bool :=
  match c with
  | is_active_true => bool_decide (r_is_active r = Some true)
  | name_ilike p => ilike (r_name r) p
  | party_ilike p =>
      match r_party r with
      | Some party => ilike party p
      | None => false
      end
  | branch_eq b => bool_decide (branch_text (r_branch r) = b)
  | state_eq s =>
      match g with
      | Some g => bool_decide (g_state g = s)
      | None => false
      end
  end.

(** ** Statements and their trace *)

Inductive Statement :=
| geoQuery (zip : option string)
| repQuery (geography_id : Z) (conditions : list Condition)
| detailQuery (id : Z)
| searchQuery (conditions : list Condition) (limit offset : option Z).

Inductive Failure :=
| invalid_parameter (reason : string).

(** A computation that awaits statements: it extends the trace of the
    statements sent so far and either fails or returns. *)
Definition Async (A : Type) : Type :=
  list Statement → list Statement * (Failure + A).

Global Instance Async_ret : MRet Async := λ A a trace, (trace, inr a).

Global Instance Async_bind : MBind Async := λ A B f m trace,
  match m trace with
  | (trace', inr a) => f a trace'
  | (trace', inl e) => (trace', inl e)
  end.

(** [try { body } catch (error) { handler }] *)
Definition try_catch {A} (body : Async A) (handler : Failure → Async A)
  : Async A :=
  λ trace,
    match body trace with
    | (trace', inl e) => handler e trace'
    | done => done
    end.

(** [await db.query(text, params)] *)
Definition query {A} (statement : Statement) (result : Failure + A)
  : Async A :=
  λ trace, ((trace ++ [statement])%list, result).

(** ** SELECT ... FROM geography WHERE zip_code = $1 *)

Definition select_geography (db : Database) (zip : option string)
  : list Geography :=
  filter (λ g, zip = Some (g_zip_code g)) (geography db).

(** ** The representatives of a geography *)

(** [CASE r.branch WHEN 'federal' THEN 1 WHEN 'state' THEN 2
    WHEN 'local' THEN 3 END] *)
Definition branch_rank (b : Branch) : Z :=
  match b with
  | federal => 1
  | state => 2
  | local => 3
  end.

(** A row: the columns of [r] and [rgm.jurisdiction_level]. *)
Definition RepRow : Type := Representative * Branch.

(** [ORDER BY CASE ... END, r.name] *)
Definition rep_order (c : Collation) (x y : RepRow) : Prop :=
  branch_rank (r_branch x.1) < branch_rank (r_branch y.1)
  ∨ (branch_rank (r_branch x.1) = branch_rank (r_branch y.1)
     ∧ text_le c (r_name x.1) (r_name y.1)).

Global Instance rep_order_dec c : RelDecision (rep_order c).
Proof. intros x y. unfold rep_order. apply _. Defined.

Definition select_representatives (db : Database) (geography_id : Z)
    (conditions : list Condition) : list RepRow :=
  merge_sort (rep_order (collation db))
    ((λ '(r, rgm), (r, rgm_jurisdiction_level rgm)) <$>
     filter (λ '(r, rgm),
               rgm_geography_id rgm = geography_id
               ∧ forallb (holds r None) conditions = true)
       (inner_join
          (λ r rgm, bool_decide (r_id r = rgm_representative_id rgm))
          (representatives db) (rep_geography_map db))).

(** ** The detail of a representative *)

Definition in_int4 (n : Z) : bool := (- 2 ^ 31 <=? n) && (n <? 2 ^ 31).
Definition in_int8 (n : Z) : bool := (- 2 ^ 63 <=? n) && (n <? 2 ^ 63).

(** [json_build_object('zip_code', g.zip_code, ...)] *)
Definition area_of (g : option Geography) : Http.Area :=
  {| Http.area_zip_code := g_zip_code <$> g;
     Http.area_city := g ≫= g_city;
     Http.area_state := g_state <$> g;
     Http.area_congressional_district := g ≫= g_congressional_district |}.

(** A row: [r.*] and the [array_agg] of the group of [r.id]. *)
Definition DetailRow : Type := Representative * list Http.Area.

Definition select_detail (db : Database) (id : Z)
  : Failure + list DetailRow :=
  if in_int4 id then
    inr ((λ r,
            (r, (λ j : Joined, area_of j.2) <$>
                filter (λ j : Joined, r_id j.1.1 = r_id r) (joined db)))
         <$> filter (λ r, r_id r = id) (representatives db))
  else inl (invalid_parameter "value out of range for type integer").

(** ** The search *)

Record SearchRow := {
  sr_id : Z;
  sr_name : string;
  sr_title : string;
  sr_party : option string;
  sr_branch : Branch;
  sr_office_type : option string;
  sr_phone : option string;
  sr_email : option string;
  sr_website : option string;
  sr_is_active : option bool;
  total_count : Z
}.

Global Instance SearchRow_eq_dec : EqDecision SearchRow.
Proof. solve_decision. Defined.

Definition search_columns (total : Z) (r : Representative) : SearchRow :=
  {| sr_id := r_id r; sr_name := r_name r; sr_title := r_title r;
     sr_party := r_party r; sr_branch := r_branch r;
     sr_office_type := r_office_type r; sr_phone := r_phone r;
     sr_email := r_email r; sr_website := r_website r;
     sr_is_active := r_is_active r; total_count := total |}.

(** [ORDER BY r.name] *)
Definition name_order (c : Collation) (x y : SearchRow) : Prop :=
  text_le c (sr_name x) (sr_name y).

Global Instance name_order_dec c : RelDecision (name_order c).
Proof. intros x y. unfold name_order. apply _. Defined.

(** The rows of FROM ... WHERE r.is_active = true AND ... *)
Definition search_matches (db : Database) (conditions : list Condition)
  : list Joined :=
  filter (λ j : Joined,
            forallb (holds j.1.1 j.2) (is_active_true :: conditions) = true)
    (joined db).

(** [SELECT DISTINCT r.id, ..., COUNT( * ) OVER() as total_count ...
    ORDER BY r.name LIMIT $l OFFSET $o]: the window function is computed
    on the rows of the WHERE clause, then DISTINCT, ORDER BY and
    LIMIT/OFFSET apply. *)
Definition select_search (db : Database) (conditions : list Condition)
    (limit offset : option Z) : Failure + list SearchRow :=
  match limit, offset with
  | Some l, Some o =>
      if negb (in_int8 l && in_int8 o) then
        inl (invalid_parameter "value out of range for type bigint")
      else if l <? 0 then
        inl (invalid_parameter "LIMIT must not be negative")
      else if o <? 0 then
        inl (invalid_parameter "OFFSET must not be negative")
      else
        let rows := search_matches db conditions in
        let window := Z.of_nat (length rows) in
        let selected := (λ j : Joined, search_columns window j.1.1) <$> rows in
        let distinct := remove_dups selected in
        let ordered := merge_sort (name_order (collation db)) distinct in
        inr (take (Z.to_nat l) (drop (Z.to_nat o) ordered))
  | _, _ => inl (invalid_parameter "invalid input syntax for type bigint")
  end.

End Storage.

(* ================================================================== *)
(** * [backend/routes/representatives.js] *)
(* ================================================================== *)

Module Routes.

Import Storage.

(** The rate limiter of [router.use(rateLimit({...}))]. *)
Definition limiter : Validation.Options :=
  {| Validation.windowMs := 15 * 60 * 1000;
     Validation.maxRequests := 100;
     Validation.message :=
       "Too many requests to representatives API, please try again later" |}.

Definition respond (status : Z) (e : Http.ErrorBody) : Http.Response :=
  {| Http.status := status; Http.body := Http.Error e |}.

Definition contact_of (phone email website : option string) : Http.Contact :=
  {| Http.phone := phone; Http.email := email; Http.website := website |}.

(** [rep.address_line1 ? {...} : null] *)
Definition address_of (r : Representative) : option Http.Address :=
  if JS.truthy (r_address_line1 r) then
    Some {| Http.line1 := r_address_line1 r;
            Http.line2 := r_address_line2 r;
            Http.city := r_address_city r;
            Http.address_state := r_address_state r;
            Http.zip := r_address_zip r |}
  else None.

Definition term_of (r : Representative) : Http.Term :=
  {| Http.term_start := r_term_start r; Http.term_end := r_term_end r |}.

(** The callback of [repResult.rows.map]. *)
Definition format_rep (rep : RepRow) : Http.Rep :=
  let r := rep.1 in
  {| Http.id := r_id r;
     Http.name := r_name r;
     Http.title := r_title r;
     Http.party := r_party r;
     Http.branch := r_branch r;
     Http.office_type := r_office_type r;
     Http.contact := contact_of (r_phone r) (r_email r) (r_website r);
     Http.address := address_of r;
     Http.photo_url := r_photo_url r;
     Http.term := term_of r;
     Http.is_active := r_is_active r;
     Http.jurisdiction_level := rep.2 |}.

Definition location_of (geography : Geography) : Http.Location :=
  {| Http.loc_city := g_city geography;
     Http.loc_state := g_state geography;
     Http.loc_state_name := g_state_name geography;
     Http.loc_county := g_county geography;
     Http.loc_congressional_district := g_congressional_district geography;
     Http.coordinates :=
       if JS.truthy (g_latitude geography) && JS.truthy (g_longitude geography)
       then Some (default EmptyString (g_latitude geography),
                  default EmptyString (g_longitude geography))
       else None |}.

(** ** GET / : the representatives of a ZIP code *)

(** The 404 of a ZIP code without a geography row. *)
Definition zip_not_found (zip : option string) : Http.Response :=
  respond 404
    {| Http.error := "ZIP code not found";
       Http.message :=
         Some ("No data available for ZIP code " ++ default "undefined" zip);
       Http.suggestion :=
         Some "Please verify the ZIP code or try a nearby area";
       Http.details := None;
       Http.retryAfter := None |}.

(** The 500 of the [catch] block. *)
Definition zip_failed : Http.Response :=
  respond 500
    (Http.error_message "Internal server error"
       "Unable to fetch representatives data").

(** "Add filters based on query parameters". *)
Definition zip_conditions (include_inactive : string) (branch : option string)
  : list Condition :=
  ((if bool_decide (include_inactive ≠ "true") then [is_active_true] else [])
   ++ (if JS.truthy branch then [branch_eq (default EmptyString branch)]
       else []))%list.

(** "Format response" and "Group representatives by branch". *)
Definition zip_response (geography : Geography) (include_inactive : string)
    (branch : option string) (rows : list RepRow) : Http.Response :=
  let representatives := format_rep <$> rows in
  let groupedReps :=
    {| Http.by_federal :=
         filter (λ rep, Http.branch rep = federal) representatives;
       Http.by_state :=
         filter (λ rep, Http.branch rep = state) representatives;
       Http.by_local :=
         filter (λ rep, Http.branch rep = local) representatives |} in
  Http.json (Http.ZipLookup
    {| Http.zb_zip := g_zip_code geography;
       Http.location := location_of geography;
       Http.count := length representatives;
       Http.by_branch := groupedReps;
       Http.all := representatives;
       Http.meta_include_inactive := bool_decide (include_inactive = "true");
       Http.meta_branch_filter :=
         if JS.truthy branch then default EmptyString branch else "all" |}).

Definition zip_handler (db : Database) (query : gmap string string)
  : Async Http.Response :=
  let zip := query !! "zip" in
  let include_inactive := default "false" (query !! "include_inactive") in
  let branch := query !! "branch" in
  try_catch
    (geoResult ← Storage.query (geoQuery zip) (inr (select_geography db zip));
     match geoResult with
     | [] => mret (zip_not_found zip)
     | geography :: _ =>
         let conditions := zip_conditions include_inactive branch in
         repResult ← Storage.query
           (repQuery (g_id geography) conditions)
           (inr (select_representatives db (g_id geography) conditions));
         mret (zip_response geography include_inactive branch repResult)
     end)
    (λ error, mret zip_failed).

(** ** GET /:id : the detail of a representative *)

Definition invalid_id : Http.Response :=
  respond 400
    (Http.error_message "Invalid representative ID"
       "Representative ID must be a valid number").

Definition representative_not_found (id : string) : Http.Response :=
  respond 404
    (Http.error_message "Representative not found"
       ("No representative found with ID " ++ id)).

Definition detail_response (rep : DetailRow) : Http.Response :=
  let r := rep.1 in
  Http.json (Http.Detail
    {| Http.d_id := r_id r;
       Http.d_name := r_name r;
       Http.d_title := r_title r;
       Http.d_party := r_party r;
       Http.d_branch := r_branch r;
       Http.d_office_type := r_office_type r;
       Http.d_contact := contact_of (r_phone r) (r_email r) (r_website r);
       Http.d_address := address_of r;
       Http.d_photo_url := r_photo_url r;
       Http.d_term := term_of r;
       Http.d_is_active := r_is_active r;
       Http.served_areas :=
         filter (λ area, Http.area_zip_code area ≠ None) rep.2;
       Http.created_at := r_created_at r;
       Http.updated_at := r_updated_at r |}).

Definition detail_failed : Http.Response :=
  respond 500
    (Http.error_message "Internal server error"
       "Unable to fetch representative details").

(** [!id || isNaN(parseInt(id))] is false exactly when this is a number. *)
Definition id_number (id : string) : option Z :=
  if JS.truthy (Some id) then JS.parseInt id else None.

Definition detail_handler (db : Database) (id : string)
  : Async Http.Response :=
  match id_number id with
  | None => mret invalid_id
  | Some n =>
      try_catch
        (result ← Storage.query (detailQuery n) (select_detail db n);
         match result with
         | [] => mret (representative_not_found id)
         | rep :: _ => mret (detail_response rep)
         end)
        (λ error, mret detail_failed)
  end.

(** ** GET /search *)

Definition criteria_required : Http.Response :=
  respond 400
    (Http.error_message "Search criteria required"
       "Please provide at least one search parameter (name, party, branch, or state)").

Definition search_failed : Http.Response :=
  respond 500
    (Http.error_message "Internal server error" "Unable to perform search").

(** [value || null] *)
Definition or_null (v : option string) : option string :=
  if JS.truthy v then v else None.

(** [parseInt(limit)] where [limit] defaults to the number [d]. *)
Definition parse_or (d : Z) (v : option string) : option Z :=
  match v with
  | Some s => JS.parseInt s
  | None => Some d
  end.

Definition format_result (rep : SearchRow) : Http.SearchResult :=
  {| Http.s_id := sr_id rep;
     Http.s_name := sr_name rep;
     Http.s_title := sr_title rep;
     Http.s_party := sr_party rep;
     Http.s_branch := sr_branch rep;
     Http.s_office_type := sr_office_type rep;
     Http.s_contact :=
       contact_of (sr_phone rep) (sr_email rep) (sr_website rep);
     Http.s_is_active := sr_is_active rep |}.

(** The clause appended when a criterion is given. *)
Definition clause (v : option string) (c : string → Condition)
  : list Condition :=
  if JS.truthy v then [c (default EmptyString v)] else [].

Definition search_conditions (name party branch state : option string)
  : list Condition :=
  (clause name (λ name, name_ilike ("%" ++ name ++ "%"))
   ++ clause party (λ party, party_ilike ("%" ++ party ++ "%"))
   ++ clause branch branch_eq
   ++ clause state (λ state, state_eq (JS.toUpperCase state)))%list.

Definition search_response (name party branch state : option string)
    (limit offset : option Z) (rows : list SearchRow) : Http.Response :=
  Http.json (Http.Search
    {| Http.results := format_result <$> rows;
       Http.pagination :=
         {| Http.total :=
              match rows with
              | first :: _ => total_count first
              | [] => 0
              end;
            Http.limit := limit;
            Http.offset := offset;
            Http.has_more :=
              bool_decide (Some (Z.of_nat (length rows)) = limit) |};
       Http.search_criteria :=
         {| Http.c_name := or_null name;
            Http.c_party := or_null party;
            Http.c_branch := or_null branch;
            Http.c_state := or_null state |} |}).

Definition search_handler (db : Database) (query : gmap string string)
  : Async Http.Response :=
  let name := query !! "name" in
  let party := query !! "party" in
  let branch := query !! "branch" in
  let state := query !! "state" in
  let limit := parse_or 20 (query !! "limit") in
  let offset := parse_or 0 (query !! "offset") in
  if negb (JS.truthy name) && negb (JS.truthy party)
     && negb (JS.truthy branch) && negb (JS.truthy state) then
    mret criteria_required
  else
    try_catch
      (let conditions := search_conditions name party branch state in
       result ← Storage.query (searchQuery conditions limit offset)
                  (select_search db conditions limit offset);
       mret (search_response name party branch state limit offset result))
      (λ error, mret search_failed).

(** ** The router *)

Record Request := {
  ip : string;
  path : string;
  query : gmap string string
}.

Inductive Pattern :=
| root                      (* '/' *)
| parameter (name : string) (* '/:id' *)
| literal (word : string).  (* '/search' *)

Inductive Endpoint := zip_lookup | detail | search.

(** The routes in the order of their registration. *)
Definition stack : list (Pattern * Endpoint) :=
  [ (root, zip_lookup); (parameter "id", detail); (literal "search", search) ].

Fixpoint has_slash (s : string) : bool :=
  match s with
  | EmptyString => false
  | String "/" _ => true
  | String _ r => has_slash r
  end.

(** A path without its optional trailing slash. *)
Fixpoint chomp (s : string) : string :=
  match s with
  | String "/" EmptyString => EmptyString
  | String c r => String c (chomp r)
  | EmptyString => EmptyString
  end.

(** What the matching of a layer against a path gives: no match, a match
    with its [req.params], or the [URIError] of a parameter that cannot
    be decoded. *)
Inductive Match :=
| no_match
| matched (params : gmap string string)
| failed (param : string).

(** Matching of a route path (not strict, not case sensitive).  The
    value of a parameter is the segment of the path passed through
    [decodeURIComponent]. *)
Definition matches (p : Pattern) (path : string) : Match :=
  match p, chomp path with
  | root, EmptyString => matched ∅
  | parameter name, String "/" (String _ _ as segment) =>
      if has_slash segment then no_match
      else match JS.decodeURIComponent segment with
           | Some value => matched {[ name := value ]}
           | None => failed segment
           end
  | literal word, String "/" rest =>
      if bool_decide (JS.toLowerCase rest = JS.toLowerCase word)
      then matched ∅ else no_match
  | _, _ => no_match
  end.

(** The first route of the stack that matches the path.  A layer whose
    matching failed leaves a pending error, with which no later route
    matches. *)
Fixpoint route (layers : list (Pattern * Endpoint)) (path : string)
  : option (Endpoint * gmap string string) :=
  match layers with
  | [] => None
  | (p, e) :: rest =>
      match matches p path with
      | matched params => Some (e, params)
      | no_match => route rest path
      | failed _ => None
      end
  end.

(** What the router hands to the application with [next(err)]. *)
Inductive Thrown :=
| decode_failed (param : string)  (* URIError: Failed to decode param *)
| rejected (e : Failure).         (* [asyncHandler]: [.catch(next)] *)

(** The pending error when no route has matched. *)
Fixpoint layerError (layers : list (Pattern * Endpoint)) (path : string)
  : option Thrown :=
  match layers with
  | [] => None
  | (p, _) :: rest =>
      match matches p path with
      | matched _ => None
      | no_match => layerError rest path
      | failed param => Some (decode_failed param)
      end
  end.

(** The handlers of an endpoint; none of them calls [next()] once the
    validator has passed. *)
Definition run (db : Database) (e : Endpoint) (params : gmap string string)
    (query : gmap string string) : Async Http.Response :=
  match e with
  | zip_lookup =>
      match Validation.createValidator "zipQuery" query with
      | Validation.Respond r => mret r
      | Validation.Next query' => zip_handler db query'
      end
  | detail => detail_handler db (default EmptyString (params !! "id"))
  | search => search_handler db query
  end.

Record Result := {
  response : option Http.Response;  (* [None]: the router sends nothing *)
  statements : list Statement;
  store : gmap string (list Z);
  error : option Thrown             (* the [err] of [next(err)], if any *)
}.

(** A GET request to the router at time [now]: the rate limiter, then the
    first matching route. *)
Definition handle (db : Database) (rateLimitStore : gmap string (list Z))
    (now : Z) (req : Request) : Result :=
  match Validation.rateLimit limiter (ip req) now rateLimitStore with
  | (Validation.Reject r, store') =>
      {| response := Some r; statements := []; store := store';
         error := None |}
  | (Validation.Accept, store') =>
      match route stack (path req) with
      | None =>
          {| response := None; statements := []; store := store';
             error := layerError stack (path req) |}
      | Some (e, params) =>
          let '(trace, outcome) := run db e params (query req) [] in
          {| response :=
               match outcome with
               | inr r => Some r
               | inl _ => None
               end;
             statements := trace;
             store := store';
             error :=
               match outcome with
               | inr _ => None
               | inl e => Some (rejected e)
               end |}
      end
  end.

End Routes.

(* ================================================================== *)
(** * The pool helpers of [backend/models/database.js] *)
(* ================================================================== *)

Module Pool.

(** What happens to a client of the pool, in order. *)
Inductive Event :=
| connected               (* pool.connect() resolved *)
| sent (text : string)    (* client.query(text) was called *)
| released.               (* client.release() *)

Global Instance Event_eq_dec : EqDecision Event.
Proof. solve_decision. Defined.

(** A client answers a statement with rows of type [R] or with an error,
    depending on what it has been sent so far. *)
Record Client (R : Type) := {
  reply : list Event → string → string + R
}.
Arguments reply {R}.

(** An asynchronous computation on a client: it extends the events and
    either throws an error or returns. *)
Definition Task (A : Type) : Type :=
  list Event → list Event * (string + A).

Global Instance Task_ret : MRet Task := λ A a events, (events, inr a).

Global Instance Task_bind : MBind Task := λ A B f m events,
  match m events with
  | (events', inr a) => f a events'
  | (events', inl e) => (events', inl e)
  end.

Definition throw {A} (error : string) : Task A := λ events, (events, inl error).

(** [try { body } catch (error) { handler }] *)
Definition try_catch {A} (body : Task A) (handler : string → Task A)
  : Task A :=
  λ events,
    match body events with
    | (events', inl error) => handler error events'
    | returned => returned
    end.

(** [try { body } finally { cleanup }] *)
Definition finally {A} (body : Task A) (cleanup : Task unit) : Task A :=
  λ events,
    let '(events', outcome) := body events in
    match cleanup events' with
    | (events'', inr _) => (events'', outcome)
    | (events'', inl error) => (events'', inl error)
    end.

(** [await pool.connect()], on a pool that refuses or hands out a client. *)
Definition connect {R} (pool : string + Client R) : Task (Client R) :=
  λ events,
    match pool with
    | inl error => (events, inl error)
    | inr client => ((events ++ [connected])%list, inr client)
    end.

(** [await client.query(text)] *)
Definition client_query {R} (client : Client R) (text : string) : Task R :=
  λ events, ((events ++ [sent text])%list, reply client events text).

(** [client.release()] *)
Definition release : Task unit :=
  λ events, ((events ++ [released])%list, inr ()).

(** The callback given to [transaction]: it returns, throws, or awaits a
    statement on the client and goes on with its outcome (so it may catch
    the error of a statement). *)
Inductive Script (R A : Type) :=
| done (a : A)
| fail (error : string)
| await (text : string) (next : string + R → Script R A).
Arguments done {R A}.
Arguments fail {R A}.
Arguments await {R A}.

Fixpoint callback {R A} (client : Client R) (script : Script R A) : Task A :=
  match script with
  | done a => mret a
  | fail error => throw error
  | await text next =>
      λ events,
        callback client (next (reply client events text))
          (events ++ [sent text])%list
  end.

(** [transaction(callback)] *)
Definition transaction {R A} (pool : string + Client R)
    (script : Script R A) : Task A :=
  client ← connect pool;
  finally
    (try_catch
       (_ ← client_query client "BEGIN";
        result ← callback client script;
        _ ← client_query client "COMMIT";
        mret result)
       (λ error,
          _ ← client_query client "ROLLBACK";
          throw error))
    release.

(** [testConnection()]; the statement is taken to return its one row. *)
Definition testConnection {R} (pool : string + Client R) : Task unit :=
  try_catch
    (client ← connect pool;
     result ← client_query client "SELECT NOW()";
     release)
    (λ err, throw err).

End Pool.

(* ================================================================== *)
(** * The seed data of [database/schema.sql] and two variations *)
(* ================================================================== *)

Module Seed.

Definition place (id : Z) (zip_code city st state_name county district : string)
  : Geography :=
  {| g_id := id; g_zip_code := zip_code; g_city := Some city;
     g_state := st; g_state_name := Some state_name;
     g_county := Some county; g_congressional_district := Some district;
     g_latitude := None; g_longitude := None |}.

(** A row of the INSERT INTO representatives; the other columns are NULL
    (the timestamps, whose default is the time of the insertion, are
    left out). *)
Definition official (id : Z) (name title party : string) (branch : Branch)
    (office_type website : string) (is_active : bool) : Representative :=
  {| r_id := id; r_name := name; r_title := title; r_party := Some party;
     r_branch := branch; r_office_type := Some office_type;
     r_phone := None; r_email := None; r_website := Some website;
     r_photo_url := None; r_address_line1 := None; r_address_line2 := None;
     r_address_city := None; r_address_state := None;
     r_address_zip := None; r_term_start := None; r_term_end := None;
     r_is_active := Some is_active; r_created_at := None;
     r_updated_at := None |}.

Definition serves (id representative_id geography_id : Z) (level : Branch)
  : RepGeographyMap :=
  {| rgm_id := id; rgm_representative_id := representative_id;
     rgm_geography_id := geography_id; rgm_jurisdiction_level := level |}.

Definition grace_meng :=
  official 1 "Grace Meng" "U.S. House Rep, NY-6" "Democratic" federal
    "House Representative" "https://meng.house.gov" true.
Definition chuck_schumer :=
  official 2 "Chuck Schumer" "U.S. Senator, NY" "Democratic" federal
    "Senator" "https://www.schumer.senate.gov" true.
Definition kirsten_gillibrand :=
  official 3 "Kirsten Gillibrand" "U.S. Senator, NY" "Democratic" federal
    "Senator" "https://www.gillibrand.senate.gov" true.
Definition kathy_hochul :=
  official 4 "Kathy Hochul" "Governor, New York" "Democratic" state
    "Governor" "https://www.governor.ny.gov" true.

Definition flushing := place 1 "11354" "Flushing" "NY" "New York" "Queens" "06".

(** The collation ["C"], which compares texts code by code. *)
Definition bytewise : Collation.
Proof.
  refine {| collate := String.leb |}.
  - exact String.leb_total.
  - assert (Htrans : ∀ a b c : string,
      String.compare a b ≠ Gt → String.compare b c ≠ Gt →
      String.compare a c ≠ Gt).
    { induction a as [|x a IH]; intros [|y b] [|z c]; simpl; try done.
      unfold Ascii.compare.
      destruct (N.compare_spec (N_of_ascii x) (N_of_ascii y));
        destruct (N.compare_spec (N_of_ascii y) (N_of_ascii z));
        destruct (N.compare_spec (N_of_ascii x) (N_of_ascii z));
        try done; try (exfalso; lia).
      apply IH. }
    intros a b c. unfold String.leb.
    specialize (Htrans a b c).
    destruct (String.compare a b), (String.compare b c),
      (String.compare a c); try done; exfalso; by apply Htrans.
Defined.

(** A collation that compares texts without regard to (ASCII) case: a
    name in lower case is not moved behind the capitalised ones. *)
Definition ignoring_case : Collation.
Proof.
  refine {| collate := λ a b,
              String.leb (JS.toLowerCase a) (JS.toLowerCase b) |}.
  - intros a b. apply (collate_total bytewise).
  - intros a b c. apply (collate_trans bytewise).
Defined.

Definition db : Database :=
  {| collation := bytewise;
     geography :=
       [ flushing;
         place 2 "20301" "Washington" "DC" "District of Columbia"
           "District of Columbia" "00";
         place 3 "90210" "Beverly Hills" "CA" "California" "Los Angeles" "30" ];
     representatives :=
       [ grace_meng; chuck_schumer; kirsten_gillibrand; kathy_hochul ];
     rep_geography_map :=
       [ serves 1 1 1 federal; serves 2 2 1 federal;
         serves 3 3 1 federal; serves 4 4 1 state ] |}.

(** The seed with a former governor, no longer active, mapped to 11354. *)
Definition andrew_cuomo :=
  official 5 "Andrew Cuomo" "Governor, New York" "Democratic" state
    "Governor" "https://www.governor.ny.gov" false.

Definition db_with_inactive : Database :=
  {| collation := collation db;
     geography := geography db;
     representatives := (representatives db ++ [andrew_cuomo])%list;
     rep_geography_map :=
       (rep_geography_map db ++ [serves 5 5 1 state])%list |}.

(** The seed with a second ZIP code of New York, served by both senators
    and the governor. *)
Definition db_two_zips : Database :=
  {| collation := collation db;
     geography :=
       (geography db
        ++ [place 4 "10001" "New York" "NY" "New York" "New York" "12"])%list;
     representatives := representatives db;
     rep_geography_map :=
       (rep_geography_map db
        ++ [serves 5 2 4 federal; serves 6 3 4 federal;
            serves 7 4 4 state])%list |}.

(** The seed with two names entered in lower case, mapped to 11354, in a
    database with the given collation. *)
Definition alice_adams :=
  official 5 "alice adams" "U.S. House Rep, NY-3" "Democratic" federal
    "House Representative" "https://adams.house.gov" true.
Definition bob_brown :=
  official 6 "bob brown" "Comptroller, New York" "Democratic" state
    "Comptroller" "https://www.osc.ny.gov" true.

Definition db_lower_case (c : Collation) : Database :=
  {| collation := c;
     geography := geography db;
     representatives := (representatives db ++ [alice_adams; bob_brown])%list;
     rep_geography_map :=
       (rep_geography_map db
        ++ [serves 5 5 1 federal; serves 6 6 1 state])%list |}.

(** A client address, and a burst of a hundred calls one second apart. *)
Definition client : string := "203.0.113.7".

Definition burst : list Z := (λ i, 1000 * Z.of_nat i) <$> seq 0 100.

(** A store in which the client has one expired timestamp and a hundred
    recent ones at time 1000000. *)
Definition full_store : gmap string (list Z) :=
  {[ client := 0 :: replicate 100 950000 ]}.

Definition get (path : string) (query : gmap string string) : Routes.Request :=
  {| Routes.ip := client; Routes.path := path; Routes.query := query |}.

End Seed.

(* ================================================================== *)
(** * Vocabulary of the properties *)
(* ================================================================== *)

(** The timestamps kept for a client key. *)
Definition stored (rateLimitStore : gmap string (list Z)) (clientIP : string)
  : list Z :=
  default [] (rateLimitStore !! clientIP).

(** Any two of the calls are less than a window apart. *)
Definition within_window (window : Z) (times : list Z) : Prop :=
  Forall (λ t, Forall (λ u, u - window < t) times) times.

(** The 429 response of the router's limiter. *)
Definition too_many_requests : Http.Response :=
  Routes.respond 429
    {| Http.error :=
         "Too many requests to representatives API, please try again later";
       Http.message := None; Http.suggestion := None; Http.details := None;
       Http.retryAfter := Some 900 |}.

(** The response of a handler run, if it sent one. *)
Definition answer (run : list Storage.Statement
                         * (Storage.Failure + Http.Response))
  : option Http.Response :=
  match run.2 with
  | inr r => Some r
  | inl _ => None
  end.

(** The body of a 200 response of the search. *)
Definition search_body (r : option Http.Response) : option Http.SearchBody :=
  match r with
  | Some {| Http.status := 200; Http.body := Http.Search b |} => Some b
  | _ => None
  end.

(** The body of a 200 response of the detail lookup. *)
Definition detail_body (r : option Http.Response) : option Http.DetailBody :=
  match r with
  | Some {| Http.status := 200; Http.body := Http.Detail b |} => Some b
  | _ => None
  end.

(** The total as the specification words it, for comparison with the one
    the statement computes: the number of distinct representatives among
    the rows that match a search, before LIMIT and OFFSET apply. *)
Definition distinct_matching (db : Database)
    (conditions : list Storage.Condition) : Z :=
  Z.of_nat (length (remove_dups
    ((λ j : Storage.Joined, r_id j.1.1)
       <$> Storage.search_matches db conditions))).

(** The body of a 200 response of the ZIP lookup. *)
Definition zip_body (r : option Http.Response) : option Http.ZipBody :=
  match r with
  | Some {| Http.status := 200; Http.body := Http.ZipLookup b |} => Some b
  | _ => None
  end.

(** The names in one of the lists of a ZIP lookup response. *)
Definition names_of (list_of : Http.ZipBody → list Http.Rep)
    (r : option Http.Response) : option (list string) :=
  (λ b, Http.name <$> list_of b) <$> zip_body r.

Definition federal_bucket (b : Http.ZipBody) : list Http.Rep :=
  Http.by_federal (Http.by_branch b).
Definition state_bucket (b : Http.ZipBody) : list Http.Rep :=
  Http.by_state (Http.by_branch b).
Definition local_bucket (b : Http.ZipBody) : list Http.Rep :=
  Http.by_local (Http.by_branch b).




(** The order of the rows, on the formatted representatives. *)
Definition view_order (c : Collation) (x y : Http.Rep) : Prop :=
  Storage.branch_rank (Http.branch x) < Storage.branch_rank (Http.branch y)
  ∨ (Storage.branch_rank (Http.branch x) = Storage.branch_rank (Http.branch y)
     ∧ Storage.text_le c (Http.name x) (Http.name y)).

(** The 422 of the validator with the given details. *)
Definition validation_failed (details : list Http.ErrorDetail)
  : Http.Response :=
  {| Http.status := 422;
     Http.body := Http.Error
       {| Http.error := "Validation failed"; Http.message := None;
          Http.suggestion := None; Http.details := Some details;
          Http.retryAfter := None |} |}.

(** A second client address. *)
Definition other_client : string := "198.51.100.9".

(** An event that is a statement sent to the client. *)
Definition is_sent (event : Pool.Event) : Prop :=
  ∃ text, event = Pool.sent text.

(** A client that answers every statement, and one that refuses the
    statement [text]. *)
Definition obliging : Pool.Client (list string) :=
  {| Pool.reply := λ _ _, inr [] |}.

Definition refusing (text : string) : Pool.Client (list string) :=
  {| Pool.reply := λ _ sent,
       if bool_decide (sent = text) then inl ("cannot " ++ sent) else inr [] |}.

(** A callback that inserts a row and returns 1, unless the statement
    fails. *)
Definition insert_one : Pool.Script (list string) Z :=
  Pool.await "INSERT INTO geography (zip_code, state) VALUES ('10001', 'NY')"
    (λ outcome,
       match outcome with
       | inl error => Pool.fail error
       | inr _ => Pool.done 1
       end).



(** The strings without a percent sign. *)
Definition escape_free (s : string) : Prop :=
  JS.all_chars (λ c, negb (bool_decide (c = "%"%char))) s = true.

Local Open Scope list_scope.

(* ================================================================== *)
(** * Facts about lists *)
(* ================================================================== *)

Section Lists.

Context {A : Type}.

Lemma filter_keeps_all (P : A → Prop) `{∀ x, Decision (P x)} (l : list A) :
  Forall P l → filter P l = l.
Proof.
  induction 1 as [|x l Hx _ IH]; [done|].
  by rewrite filter_cons_True, IH.
Qed.

Lemma filter_drops_all (P : A → Prop) `{∀ x, Decision (P x)} (l : list A) :
  Forall (λ x, ¬ P x) l → filter P l = [].
Proof.
  induction 1 as [|x l Hx _ IH]; [done|].
  by rewrite filter_cons_False, IH.
Qed.



End Lists.

(* ================================================================== *)
(** * The order of text and of rows *)
(* ================================================================== *)

Section Collated.

Context (c : Collation).

Global Instance text_le_trans : Transitive (Storage.text_le c).
Proof. intros x y z. apply collate_trans. Qed.

Global Instance text_le_total : Total (Storage.text_le c).
Proof. intros x y. apply collate_total. Qed.

Global Instance rep_order_trans : Transitive (Storage.rep_order c).
Proof.
  intros x y z [Hxy|[Hxy Hn]] [Hyz|[Hyz Hm]]; unfold Storage.rep_order;
    [left; lia..|].
  right. split; [lia|]. by etrans.
Qed.

Global Instance rep_order_total : Total (Storage.rep_order c).
Proof.
  intros x y. unfold Storage.rep_order.
  destruct (Z.lt_trichotomy (Storage.branch_rank (r_branch x.1))
              (Storage.branch_rank (r_branch y.1))) as [?|[Heq|?]];
    [by left; left| |by right; left].
  destruct (text_le_total (r_name x.1) (r_name y.1)).
  - left. right. done.
  - right. right. done.
Qed.

Global Instance name_order_trans : Transitive (Storage.name_order c).
Proof. intros x y z. unfold Storage.name_order. apply text_le_trans. Qed.

Global Instance name_order_total : Total (Storage.name_order c).
Proof. intros x y. unfold Storage.name_order. apply text_le_total. Qed.


End Collated.

(** The rows of the representatives statement come out sorted, and
    formatting keeps the order. *)
Lemma select_representatives_sorted db geography_id conditions :
  StronglySorted (view_order (collation db))
    (Routes.format_rep
       <$> Storage.select_representatives db geography_id conditions).
Proof.
  unfold Storage.select_representatives.
  apply (StronglySorted_fmap Routes.format_rep
           (Storage.rep_order (collation db)) (view_order (collation db))).
  - intros x y Hxy. exact Hxy.
  - apply StronglySorted_merge_sort; apply _.
Qed.

(* ================================================================== *)
(** * The rate limiter *)
(* ================================================================== *)

Section RateLimit.

Variable options : Validation.Options.
Variable clientIP : string.

Abbreviation window := (Validation.windowMs options).
Abbreviation valid now store :=
  (filter (λ timestamp, now - window < timestamp) (stored store clientIP)).

Lemma rateLimit_reject now store :
  Validation.maxRequests options ≤ Z.of_nat (length (valid now store)) →
  ∃ r, Validation.rateLimit options clientIP now store
       = (Validation.Reject r, store)
       ∧ Http.status r = 429
       ∧ ∃ e, Http.body r = Http.Error e
              ∧ Http.retryAfter e = Some (JS.ceil_div window 1000).
Proof.
  intros Hfull. unfold Validation.rateLimit, stored in *.
  case_decide; [|lia]. eexists; split; [reflexivity|].
  split; [reflexivity|]. eexists; split; reflexivity.
Qed.

Lemma rateLimit_accept now store :
  Z.of_nat (length (valid now store)) < Validation.maxRequests options →
  Validation.rateLimit options clientIP now store
  = (Validation.Accept, <[clientIP := valid now store ++ [now]]> store).
Proof.
  intros Hroom. unfold Validation.rateLimit, stored in *.
  case_decide; [lia|]. reflexivity.
Qed.

Lemma rateLimit_inv now store v store' :
  Validation.rateLimit options clientIP now store = (v, store') →
  (v = Validation.Accept
   ∧ Z.of_nat (length (valid now store)) < Validation.maxRequests options
   ∧ store' = <[clientIP := valid now store ++ [now]]> store)
  ∨ ((∃ r, v = Validation.Reject r)
     ∧ Validation.maxRequests options ≤ Z.of_nat (length (valid now store))
     ∧ store' = store).
Proof.
  unfold Validation.rateLimit, stored. case_decide; intros [= <- <-].
  - right. eauto.
  - left. split; [done|]. split; [lia|done].
Qed.

Lemma calls_cons now later store :
  Validation.calls options clientIP (now :: later) store
  = let r := Validation.rateLimit options clientIP now store in
    let rs := Validation.calls options clientIP later r.2 in
    (r.1 :: rs.1, rs.2).
Proof.
  simpl. destruct (Validation.rateLimit _ _ _ _) as [v s1].
  destruct (Validation.calls _ _ _ _) as [vs s2]. reflexivity.
Qed.

(** Accepted calls that stay within a window of one another pile up at the
    end of the stored sequence. *)
Lemma calls_accepted_pile times : ∀ store done pre verdicts store',
  stored store clientIP = pre ++ done →
  (∀ t u, t ∈ done ++ times → u ∈ times → u - window < t) →
  Validation.calls options clientIP times store = (verdicts, store') →
  Forall (eq Validation.Accept) verdicts →
  ∃ pre', stored store' clientIP = pre' ++ done ++ times.
Proof.
  induction times as [|now later IH];
    intros store done pre verdicts store' Hsto Hwin Hcalls Hacc.
  - injection Hcalls as <- <-. exists pre. by rewrite app_nil_r.
  - rewrite calls_cons in Hcalls.
    destruct (Validation.rateLimit options clientIP now store)
      as [v s1] eqn:Hstep.
    simpl in Hcalls.
    destruct (Validation.calls options clientIP later s1)
      as [vs s2] eqn:Hrest.
    simpl in Hcalls. injection Hcalls as <- <-.
    apply Forall_cons in Hacc as [<- Hacc].
    apply rateLimit_inv in Hstep as [(_ & _ & ->)|([r [=]] & _)].
    assert (Hkeep : valid now store
                    = filter (λ timestamp, now - window < timestamp) pre
                      ++ done).
    { rewrite Hsto, filter_app. f_equal.
      apply filter_keeps_all, Forall_forall. intros t Ht.
      apply Hwin; [apply elem_of_app; by left | apply elem_of_cons; by left]. }
    destruct (IH (<[clientIP := valid now store ++ [now]]> store)
                 (done ++ [now])
                 (filter (λ timestamp, now - window < timestamp) pre)
                 vs s2) as [pre' Hpre']; [| |done|done|].
    + unfold stored at 1. rewrite lookup_insert_eq. simpl.
      by rewrite Hkeep, <- app_assoc.
    + intros t u Ht Hu. apply Hwin; [|apply elem_of_cons; by right].
      rewrite <- app_assoc in Ht. exact Ht.
    + exists pre'. by rewrite Hpre', <- app_assoc.
Qed.

(** While the budget is not used up, every call is accepted. *)
Lemma calls_within_budget times : ∀ store,
  Z.of_nat (length (stored store clientIP) + length times)
  ≤ Validation.maxRequests options →
  (Validation.calls options clientIP times store).1
  = replicate (length times) Validation.Accept.
Proof.
  induction times as [|now later IH]; intros store Hbudget; [done|].
  rewrite calls_cons. simpl in *.
  assert (Hkept : (length (valid now store) ≤ length (stored store clientIP))%nat)
    by apply length_filter.
  rewrite rateLimit_accept by lia. simpl. f_equal. apply IH.
  unfold stored at 1. rewrite lookup_insert_eq. simpl.
  rewrite length_app. simpl. lia.
Qed.

(** A call never adds a timestamp other than its own time, and only when
    it is accepted. *)
Lemma calls_stored_origin times : ∀ store verdicts store' t,
  Validation.calls options clientIP times store = (verdicts, store') →
  t ∈ stored store' clientIP →
  t ∈ stored store clientIP
  ∨ ∃ i, times !! i = Some t ∧ verdicts !! i = Some Validation.Accept.
Proof.
  induction times as [|now later IH]; intros store verdicts store' t Hcalls Ht.
  - injection Hcalls as <- <-. by left.
  - rewrite calls_cons in Hcalls.
    destruct (Validation.rateLimit options clientIP now store)
      as [v s1] eqn:Hstep.
    simpl in Hcalls.
    destruct (Validation.calls options clientIP later s1)
      as [vs s2] eqn:Hrest.
    simpl in Hcalls. injection Hcalls as <- <-.
    destruct (IH _ _ _ _ Hrest Ht) as [Hin|(i & Hi & Hv)].
    + apply rateLimit_inv in Hstep as [(-> & _ & ->)|(_ & _ & ->)];
        [|by left].
      unfold stored at 1 in Hin. rewrite lookup_insert_eq in Hin.
      simpl in Hin. apply elem_of_app in Hin as [Hin|Hin].
      * left. by apply list_elem_of_filter in Hin as [_ Hin].
      * apply list_elem_of_singleton in Hin as ->. right. by exists 0%nat.
    + right. by exists (S i).
Qed.

End RateLimit.

(** C6. The limiter of the router (100 requests per 900000 ms): a call keeps
    the stored timestamps that are later than [now - 900000] and drops the
    others; with at least 100 kept it answers 429 with [retryAfter] 900 and
    leaves the store alone, otherwise it stores the kept timestamps followed
    by [now] and accepts.  So after 100 accepted calls of one client that lie
    within a window, the 101st call is rejected; and once every stored
    timestamp is a window old, the next call is accepted. *)
Theorem rate_limiter_hundred_per_window
    (store : gmap string (list Z)) (key : string) (times : list Z)
    (t101 later : Z) (verdicts : list Validation.Verdict)
    (store100 : gmap string (list Z)) :
  length times = 100%nat →
  within_window 900000 (times ++ [t101]) →
  Validation.calls Routes.limiter key times store = (verdicts, store100) →
  verdicts = replicate 100 Validation.Accept →
  Forall (λ t, t ≤ later - 900000) (stored store100 key) →
  (∀ s k now,
     let kept := filter (λ t, now - 900000 < t) (stored s k) in
     (∀ t, t < now - 900000 → t ∉ kept)
     ∧ (∀ t, t ∈ kept ↔ now - 900000 < t ∧ t ∈ stored s k)
     ∧ (100 ≤ Z.of_nat (length kept) →
        Validation.rateLimit Routes.limiter k now s
        = (Validation.Reject too_many_requests, s))
     ∧ (Z.of_nat (length kept) < 100 →
        Validation.rateLimit Routes.limiter k now s
        = (Validation.Accept, <[k := kept ++ [now]]> s)))
  ∧ Validation.rateLimit Routes.limiter key t101 store100
    = (Validation.Reject too_many_requests, store100)
  ∧ Validation.rateLimit Routes.limiter key later
      (Validation.rateLimit Routes.limiter key t101 store100).2
    = (Validation.Accept, <[key := [later]]> store100).
Proof.
  intros Hlen Hwin Hcalls Hacc%(f_equal (Forall (eq Validation.Accept))) Hold.
  assert (Hall : Forall (eq Validation.Accept) verdicts).
  { rewrite Hacc. by apply Forall_replicate. }
  clear Hacc.
  assert (Hstep : ∀ s k now,
    let kept := filter (λ t, now - 900000 < t) (stored s k) in
    (100 ≤ Z.of_nat (length kept) →
     Validation.rateLimit Routes.limiter k now s
     = (Validation.Reject too_many_requests, s))
    ∧ (Z.of_nat (length kept) < 100 →
       Validation.rateLimit Routes.limiter k now s
       = (Validation.Accept, <[k := kept ++ [now]]> s))).
  { intros s k now kept. subst kept. unfold Validation.rateLimit, stored.
    change (Validation.windowMs Routes.limiter) with 900000.
    change (Validation.maxRequests Routes.limiter) with 100.
    split; intros Hn; case_decide; try lia; reflexivity. }
  assert (Hreject : Validation.rateLimit Routes.limiter key t101 store100
                    = (Validation.Reject too_many_requests, store100)).
  { apply Hstep.
    destruct (calls_accepted_pile Routes.limiter key times store [] (stored store key)
                verdicts store100) as [pre Hpre]; [by rewrite app_nil_r| |done|done|].
    - intros t u Ht Hu. simpl in Ht.
      change (Validation.windowMs Routes.limiter) with 900000.
      unfold within_window in Hwin.
      rewrite Forall_forall in Hwin.
      assert (Ht' : t ∈ times ++ [t101]) by (apply elem_of_app; by left).
      specialize (Hwin t Ht'). rewrite Forall_forall in Hwin.
      apply Hwin, elem_of_app. by left.
    - simpl in Hpre. rewrite Hpre, filter_app, length_app.
      rewrite (filter_keeps_all _ times); [lia|].
      apply Forall_forall. intros t Ht.
      unfold within_window in Hwin. rewrite Forall_forall in Hwin.
      assert (Ht' : t ∈ times ++ [t101]) by (apply elem_of_app; by left).
      specialize (Hwin t Ht'). rewrite Forall_forall in Hwin.
      apply Hwin, elem_of_app. right. by apply list_elem_of_singleton. }
  split; [|split].
  - intros s k now kept. subst kept.
    split; [|split; [|apply Hstep]].
    + intros t Hold' [Hnew _]%list_elem_of_filter. lia.
    + intros t. by rewrite list_elem_of_filter.
  - exact Hreject.
  - rewrite Hreject. simpl.
    destruct (Hstep store100 key later) as [_ Haccept].
    rewrite Haccept.
    + rewrite filter_drops_all; [done|].
      eapply Forall_impl; [exact Hold|]. intros t Ht. simpl in Ht. lia.
    + rewrite filter_drops_all; [simpl; lia|].
      eapply Forall_impl; [exact Hold|]. intros t Ht. simpl in Ht. lia.
Qed.

Lemma rate_limiter_hundred_per_window_witness :
  let run := Validation.calls Routes.limiter Seed.client Seed.burst ∅ in
  run.1 = replicate 100 Validation.Accept
  ∧ Validation.rateLimit Routes.limiter Seed.client 100000 run.2
    = (Validation.Reject too_many_requests, run.2)
  ∧ Validation.rateLimit Routes.limiter Seed.client 1000000 run.2
    = (Validation.Accept, <[Seed.client := [1000000]]> run.2).
Proof.
  intros run.
  assert (Hacc : run.1 = replicate 100 Validation.Accept).
  { vm_compute. reflexivity. }
  split; [exact Hacc|].
  destruct (rate_limiter_hundred_per_window ∅ Seed.client Seed.burst
              100000 1000000 run.1 run.2) as (_ & Hreject & Haccept).
  - reflexivity.
  - compute_done.
  - subst run. by destruct (Validation.calls _ _ _ _).
  - exact Hacc.
  - compute_done.
  - split; [exact Hreject|]. rewrite Hreject in Haccept. exact Haccept.
Defined.

(** C10. A rejected call leaves the store as it was: neither the time of the
    call nor the pruned sequence is written.  Whatever calls follow, the
    timestamps stored for the client are timestamps from before the rejected
    call or the times of later accepted calls. *)
Theorem rejected_call_leaves_store
    (options : Validation.Options) (key : string) (now : Z)
    (store store' : gmap string (list Z)) (r : Http.Response) :
  Validation.rateLimit options key now store = (Validation.Reject r, store') →
  store' = store
  ∧ ∀ times verdicts store'' t,
      Validation.calls options key times store' = (verdicts, store'') →
      t ∈ stored store'' key →
      t ∈ stored store key
      ∨ ∃ i, times !! i = Some t ∧ verdicts !! i = Some Validation.Accept.
Proof.
  intros Hstep.
  apply rateLimit_inv in Hstep as [([=] & _)|(_ & _ & ->)].
  split; [done|]. intros times verdicts store'' t.
  apply calls_stored_origin.
Qed.

Lemma rejected_call_leaves_store_witness :
  Validation.rateLimit Routes.limiter Seed.client 1000000 Seed.full_store
  = (Validation.Reject too_many_requests, Seed.full_store)
  ∧ (Validation.rateLimit Routes.limiter Seed.client 1000000 Seed.full_store).2
    = Seed.full_store.
Proof.
  split; [vm_compute; reflexivity|].
  refine (proj1 (rejected_call_leaves_store Routes.limiter Seed.client 1000000
                   Seed.full_store _ too_many_requests _)).
  vm_compute. reflexivity.
Defined.

(* ================================================================== *)
(** * The handlers, statement by statement *)
(* ================================================================== *)

Ltac run_handler :=
  unfold Storage.try_catch, Storage.query, mbind, Storage.Async_bind,
    mret, Storage.Async_ret; simpl.

Lemma zip_handler_run db query trace :
  Routes.zip_handler db query trace
  = let zip := query !! "zip" in
    let include_inactive := default "false" (query !! "include_inactive") in
    let branch := query !! "branch" in
    match Storage.select_geography db zip with
    | [] => (trace ++ [Storage.geoQuery zip], inr (Routes.zip_not_found zip))
    | geography :: _ =>
        let conditions := Routes.zip_conditions include_inactive branch in
        ((trace ++ [Storage.geoQuery zip])
           ++ [Storage.repQuery (g_id geography) conditions],
         inr (Routes.zip_response geography include_inactive branch
                (Storage.select_representatives db (g_id geography)
                   conditions)))
    end.
Proof.
  unfold Routes.zip_handler. run_handler.
  by destruct (Storage.select_geography db (query !! "zip")).
Qed.

Lemma detail_handler_run db id trace :
  Routes.detail_handler db id trace
  = match Routes.id_number id with
    | None => (trace, inr Routes.invalid_id)
    | Some n =>
        (trace ++ [Storage.detailQuery n],
         inr match Storage.select_detail db n with
             | inl _ => Routes.detail_failed
             | inr [] => Routes.representative_not_found id
             | inr (rep :: _) => Routes.detail_response rep
             end)
    end.
Proof.
  unfold Routes.detail_handler. destruct (Routes.id_number id); [|done].
  run_handler. by destruct (Storage.select_detail db z) as [|[|]].
Qed.

Lemma search_handler_run db query trace :
  Routes.search_handler db query trace
  = let name := query !! "name" in
    let party := query !! "party" in
    let branch := query !! "branch" in
    let state := query !! "state" in
    let limit := Routes.parse_or 20 (query !! "limit") in
    let offset := Routes.parse_or 0 (query !! "offset") in
    if negb (JS.truthy name) && negb (JS.truthy party)
       && negb (JS.truthy branch) && negb (JS.truthy state)
    then (trace, inr Routes.criteria_required)
    else
      let conditions := Routes.search_conditions name party branch state in
      (trace ++ [Storage.searchQuery conditions limit offset],
       inr match Storage.select_search db conditions limit offset with
           | inl _ => Routes.search_failed
           | inr rows =>
               Routes.search_response name party branch state limit offset rows
           end).
Proof.
  unfold Routes.search_handler. simpl.
  destruct (negb _ && negb _ && negb _ && negb _); [done|].
  run_handler. by destruct (Storage.select_search _ _ _ _).
Qed.

(* ================================================================== *)
(** * The validator of the ZIP lookup *)
(* ================================================================== *)

(** With [stripUnknown], the validated value has the key [zip] only. *)
Lemma validated_value (query : gmap string string) :
  filter (λ kv : string * string,
            kv.1 ∈ Validation.key <$> Validation.zipQuery) query
  = match query !! "zip" with
    | Some z => {[ "zip" := z ]}
    | None => ∅
    end.
Proof.
  apply map_eq. intros i. destruct (decide (i = "zip")) as [->|Hne].
  - destruct (query !! "zip") as [z|] eqn:Hz.
    + rewrite lookup_singleton_eq. apply map_lookup_filter_Some_2; [done|].
      simpl. apply list_elem_of_here.
    + rewrite lookup_empty. apply map_lookup_filter_None_2. by left.
  - transitivity (@None string).
    + apply map_lookup_filter_None_2. right. intros x _ Hin. simpl in Hin.
      apply list_elem_of_singleton in Hin. done.
    + destruct (query !! "zip"); [by rewrite lookup_singleton_ne|].
      by rewrite lookup_empty.
Qed.

(** The validator reads nothing but [zip]. *)
Lemma createValidator_reads_zip (query query' : gmap string string) :
  query !! "zip" = query' !! "zip" →
  Validation.createValidator "zipQuery" query
  = Validation.createValidator "zipQuery" query'.
Proof.
  intros Hzip. unfold Validation.createValidator, Validation.schemas.
  rewrite lookup_singleton_eq. unfold Validation.validate.
  rewrite !validated_value. simpl. unfold Validation.check_key. simpl.
  by rewrite Hzip.
Qed.

Lemma createValidator_cases (query : gmap string string) :
  (∃ z, query !! "zip" = Some z ∧ Validation.five_digits z = true
        ∧ Validation.createValidator "zipQuery" query
          = Validation.Next {[ "zip" := z ]})
  ∨ (∃ r, Validation.createValidator "zipQuery" query = Validation.Respond r
          ∧ Http.status r = 422
          ∧ ∃ e, Http.body r = Http.Error e).
Proof.
  unfold Validation.createValidator, Validation.schemas.
  rewrite lookup_singleton_eq. unfold Validation.validate.
  rewrite validated_value. simpl. unfold Validation.check_key. simpl.
  destruct (query !! "zip") as [z|]; simpl; [|right; eauto].
  unfold Validation.zip_rule.
  destruct z as [|c z]; simpl; [right; eauto|].
  destruct (Validation.five_digits (String c z)) eqn:Hfive; simpl;
    [left; eauto|right; eauto].
Qed.

(* ================================================================== *)
(** * The ZIP lookup *)
(* ================================================================== *)


(** A 200 body of the ZIP lookup that leaves the router was built by the
    handler of the ZIP lookup. *)
Lemma handle_zip_body db store now req b :
  zip_body (Routes.response (Routes.handle db store now req)) = Some b →
  ∃ z, Routes.query req !! "zip" = Some z
       ∧ zip_body (answer (Routes.zip_handler db {[ "zip" := z ]} []))
         = Some b.
Proof.
  unfold Routes.handle.
  destruct (Validation.rateLimit _ _ _ _) as [[|r] store'] eqn:Hlimit.
  - destruct (Routes.route _ _) as [[e params]|]; [|done].
    destruct e; simpl.
    + destruct (createValidator_cases (Routes.query req))
        as [(z & Hz & _ & ->)|(r & -> & Hstatus & _)].
      * destruct (Routes.zip_handler db {[ "zip" := z ]} [])
          as [trace outcome] eqn:Hrun.
        simpl. intros Hb. exists z. by rewrite Hrun.
      * simpl. destruct r as [status body]. simpl in Hstatus. by subst.
    + rewrite detail_handler_run. destruct (Routes.id_number _); [|done].
      by destruct (Storage.select_detail db z) as [|[|]].
    + rewrite search_handler_run. simpl.
      destruct (negb _ && negb _ && negb _ && negb _); [done|].
      by destruct (Storage.select_search _ _ _ _).
  - unfold Validation.rateLimit in Hlimit. case_decide; [|done].
    by injection Hlimit as <- <-.
Qed.



Lemma select_geography_unknown db zip :
  Forall (λ g, zip ≠ Some (g_zip_code g)) (geography db) →
  Storage.select_geography db zip = [].
Proof. intros Hnone. unfold Storage.select_geography. by apply filter_drops_all.
Qed.

(** C7. When no geography row has the requested ZIP code, the handler sends
    the one geography statement and answers 404 with the suggestion to
    verify the ZIP code; through the router the response is that 404 for a
    five-digit value that passes the limiter, and never a 200. *)
Theorem unknown_zip_is_not_found (db : Database) (query : gmap string string) :
  Forall (λ g, query !! "zip" ≠ Some (g_zip_code g)) (geography db) →
  (∀ trace,
     Routes.zip_handler db query trace
     = (trace ++ [Storage.geoQuery (query !! "zip")],
        inr (Routes.zip_not_found (query !! "zip"))))
  ∧ Http.status (Routes.zip_not_found (query !! "zip")) = 404
  ∧ (∃ e, Http.body (Routes.zip_not_found (query !! "zip")) = Http.Error e
          ∧ Http.error e = "ZIP code not found"
          ∧ Http.suggestion e
            = Some "Please verify the ZIP code or try a nearby area")
  ∧ (∀ store now ip z,
       query !! "zip" = Some z → Validation.five_digits z = true →
       (Validation.rateLimit Routes.limiter ip now store).1
       = Validation.Accept →
       Routes.response
         (Routes.handle db store now
            {| Routes.ip := ip; Routes.path := "/"; Routes.query := query |})
       = Some (Routes.zip_not_found (Some z)))
  ∧ (∀ store now ip,
       zip_body
         (Routes.response
            (Routes.handle db store now
               {| Routes.ip := ip; Routes.path := "/"; Routes.query := query |}))
       = None).
Proof.
  intros Hnone.
  assert (Hrun : ∀ q trace, q !! "zip" = query !! "zip" →
    Routes.zip_handler db q trace
    = (trace ++ [Storage.geoQuery (query !! "zip")],
       inr (Routes.zip_not_found (query !! "zip")))).
  { intros q trace Hq. rewrite zip_handler_run. simpl. rewrite Hq.
    by rewrite select_geography_unknown. }
  split; [intros trace; by apply Hrun|].
  split; [done|]. split; [eexists; repeat split|]. split.
  - intros store now ip z Hz Hfive Haccept. unfold Routes.handle. simpl.
    destruct (Validation.rateLimit Routes.limiter ip now store)
      as [v store']. simpl in Haccept. subst v.
    change (Routes.route Routes.stack "/")
      with (Some (Routes.zip_lookup, (∅ : gmap string string))).
    simpl.
    destruct (createValidator_cases query)
      as [(z' & Hz' & _ & ->)|(r & Hr & _)].
    + rewrite Hrun; [|by rewrite lookup_singleton_eq, Hz'].
      simpl. by rewrite Hz.
    + exfalso. revert Hr.
      unfold Validation.createValidator, Validation.schemas.
      rewrite lookup_singleton_eq. unfold Validation.validate.
      rewrite validated_value. simpl. unfold Validation.check_key. simpl.
      rewrite Hz. simpl. unfold Validation.zip_rule.
      destruct z; [done|]. by rewrite Hfive.
  - intros store now ip.
    destruct (zip_body _) as [b|] eqn:Hb; [|done].
    apply handle_zip_body in Hb as (z & Hz & Hb). exfalso.
    rewrite Hrun in Hb; [done|]. by rewrite lookup_singleton_eq.
Qed.

Lemma unknown_zip_is_not_found_witness :
  Routes.response
    (Routes.handle Seed.db ∅ 0 (Seed.get "/" {[ "zip" := "99999" ]}))
  = Some (Routes.zip_not_found (Some "99999"))
  ∧ Http.status (Routes.zip_not_found (Some "99999")) = 404.
Proof.
  destruct (unknown_zip_is_not_found Seed.db {[ "zip" := "99999" ]})
    as (_ & Hstatus & _ & Hrouter & _).
  - compute_done.
  - split; [|exact Hstatus].
    apply (Hrouter ∅ 0 Seed.client "99999"); vm_compute; reflexivity.
Defined.

(** The response of the router to a ZIP lookup is determined by [zip]
    alone: the validator drops every other query parameter. *)
Lemma zip_lookup_reads_zip_only db store now ip query query' :
  query !! "zip" = query' !! "zip" →
  Routes.handle db store now
    {| Routes.ip := ip; Routes.path := "/"; Routes.query := query |}
  = Routes.handle db store now
      {| Routes.ip := ip; Routes.path := "/"; Routes.query := query' |}.
Proof.
  intros Hzip. unfold Routes.handle. simpl.
  destruct (Validation.rateLimit Routes.limiter ip now store) as [[|r] store'];
    [|done].
  change (Routes.route Routes.stack "/")
    with (Some (Routes.zip_lookup, (∅ : gmap string string))).
  simpl. by rewrite (createValidator_reads_zip query query').
Qed.

(** C1. Through the router the branch filter has no effect, because the
    validator of the route strips [branch] from the query: the response
    depends on [zip] only, and on the seed data the request for ZIP 11354
    with [branch=federal] returns all four representatives, the governor in
    the state bucket.  The handler alone, given the same query, returns the
    three federal representatives. *)
Theorem branch_filter_lost_in_validation :
  (∀ db store now ip query,
     Routes.handle db store now
       {| Routes.ip := ip; Routes.path := "/"; Routes.query := query |}
     = Routes.handle db store now
         {| Routes.ip := ip; Routes.path := "/";
            Routes.query := delete "branch" query |})
  ∧
  let request := Seed.get "/" {[ "zip" := "11354"; "branch" := "federal" ]} in
  let sent := Routes.response (Routes.handle Seed.db ∅ 0 request) in
  names_of Http.all sent
  = Some ["Chuck Schumer"; "Grace Meng"; "Kirsten Gillibrand"; "Kathy Hochul"]
  ∧ names_of state_bucket sent = Some ["Kathy Hochul"]
  ∧ Http.meta_branch_filter <$> zip_body sent = Some "all"
  ∧ Routes.statements (Routes.handle Seed.db ∅ 0 request)
    = [Storage.geoQuery (Some "11354");
       Storage.repQuery 1 [Storage.is_active_true]]
  ∧ names_of Http.all
      (answer (Routes.zip_handler Seed.db (Routes.query request) []))
    = Some ["Chuck Schumer"; "Grace Meng"; "Kirsten Gillibrand"].
Proof.
  split; [|vm_compute; repeat split].
  intros db store now ip query. apply zip_lookup_reads_zip_only.
  by rewrite lookup_delete_ne.
Qed.

(** C2. Through the router [include_inactive=true] has no effect, because
    the validator of the route strips it from the query: with an inactive
    representative mapped to ZIP 11354 the response is the default one,
    without him, and reports [include_inactive] as false.  The handler
    alone, given the same query, includes him. *)
Theorem include_inactive_lost_in_validation :
  (∀ db store now ip query,
     Routes.handle db store now
       {| Routes.ip := ip; Routes.path := "/"; Routes.query := query |}
     = Routes.handle db store now
         {| Routes.ip := ip; Routes.path := "/";
            Routes.query := delete "include_inactive" query |})
  ∧
  let request :=
    Seed.get "/" {[ "zip" := "11354"; "include_inactive" := "true" ]} in
  let sent := Routes.response (Routes.handle Seed.db_with_inactive ∅ 0 request) in
  names_of Http.all sent
  = Some ["Chuck Schumer"; "Grace Meng"; "Kirsten Gillibrand"; "Kathy Hochul"]
  ∧ Http.meta_include_inactive <$> zip_body sent = Some false
  ∧ Routes.statements (Routes.handle Seed.db_with_inactive ∅ 0 request)
    = [Storage.geoQuery (Some "11354");
       Storage.repQuery 1 [Storage.is_active_true]]
  ∧ names_of Http.all
      (answer (Routes.zip_handler Seed.db_with_inactive
                 (Routes.query request) []))
    = Some ["Chuck Schumer"; "Grace Meng"; "Kirsten Gillibrand";
            "Andrew Cuomo"; "Kathy Hochul"].
Proof.
  split; [|vm_compute; repeat split].
  intros db store now ip query. apply zip_lookup_reads_zip_only.
  by rewrite lookup_delete_ne.
Qed.


(* ================================================================== *)
(** * The detail lookup and the order of the routes *)
(* ================================================================== *)

(** An identifier that [parseInt] cannot read is refused before any
    statement is sent. *)
Lemma detail_not_a_number db id trace :
  JS.parseInt id = None →
  Routes.detail_handler db id trace = (trace, inr Routes.invalid_id).
Proof.
  intros Hnan. rewrite detail_handler_run. unfold Routes.id_number.
  rewrite Hnan. by destruct (JS.truthy (Some id)).
Qed.

(** A number of the column's type that is the key of no row gives 404. *)
Lemma detail_unknown_number db id n trace :
  Routes.id_number id = Some n → Storage.in_int4 n = true →
  Forall (λ r, r_id r ≠ n) (representatives db) →
  Routes.detail_handler db id trace
  = (trace ++ [Storage.detailQuery n],
     inr (Routes.representative_not_found id)).
Proof.
  intros Hid Hrange Hnone. rewrite detail_handler_run, Hid.
  unfold Storage.select_detail. rewrite Hrange.
  rewrite (filter_drops_all (λ r, r_id r = n)); [done|].
  eapply Forall_impl; [exact Hnone|]. intros r Hr. exact Hr.
Qed.

(** A search without criteria that reaches the search handler is refused
    before any statement is sent. *)
Lemma search_without_criteria db query trace :
  JS.truthy (query !! "name") = false →
  JS.truthy (query !! "party") = false →
  JS.truthy (query !! "branch") = false →
  JS.truthy (query !! "state") = false →
  Routes.search_handler db query trace
  = (trace, inr Routes.criteria_required).
Proof.
  intros Hn Hp Hb Hs. rewrite search_handler_run. simpl.
  by rewrite Hn, Hp, Hb, Hs.
Qed.

Lemma lower_char_slash (c : ascii) :
  JS.lower_char c = "/"%char ↔ c = "/"%char.
Proof.
  destruct c as [[] [] [] [] [] [] [] []]; vm_compute; split; intros H;
    first [reflexivity | discriminate H].
Qed.

Lemma has_slash_cons (c : ascii) (r : string) :
  Routes.has_slash (String c r)
  = if decide (c = "/"%char) then true else Routes.has_slash r.
Proof.
  case_decide as Hc; [by subst|].
  destruct c as [[] [] [] [] [] [] [] []]; try reflexivity. by destruct Hc.
Qed.

Lemma has_slash_lower (s : string) :
  Routes.has_slash (JS.toLowerCase s) = Routes.has_slash s.
Proof.
  induction s as [|c s IH]; [done|].
  cbn [JS.toLowerCase]. rewrite !has_slash_cons, IH.
  repeat case_decide; try done; exfalso; by rewrite lower_char_slash in *.
Qed.

(** Every path of the route [/search] is a path of the route [/:id]. *)
Lemma literal_matches_parameter word name path params :
  Routes.has_slash (JS.toLowerCase word) = false →
  word ≠ EmptyString →
  Routes.matches (Routes.literal word) path = Routes.matched params →
  Routes.matches (Routes.parameter name) path ≠ Routes.no_match.
Proof.
  intros Hword Hne. unfold Routes.matches.
  destruct (Routes.chomp path) as [|c rest]; [done|].
  destruct (decide (c = "/"%char)) as [->|Hc].
  - case_bool_decide as Hlow; [|done]. intros _.
    assert (Hslash : Routes.has_slash rest = false).
    { by rewrite <- has_slash_lower, Hlow. }
    destruct rest as [|d rest]; [by destruct word|].
    rewrite Hslash. by destruct (JS.decodeURIComponent _).
  - destruct c as [[] [] [] [] [] [] [] []]; done.
Qed.

(** The route [/search] is never selected. *)
Lemma search_route_unreachable path params :
  Routes.route Routes.stack path ≠ Some (Routes.search, params).
Proof.
  unfold Routes.stack. cbn [Routes.route].
  destruct (Routes.matches Routes.root path); [|intros [=]|done].
  destruct (Routes.matches (Routes.parameter "id") path) eqn:Hid;
    [|intros [=]|done].
  destruct (Routes.matches (Routes.literal "search") path) as [|m|] eqn:Hlit;
    [done| |done].
  exfalso.
  by apply (literal_matches_parameter "search" "id" path m).
Qed.

(** C5. The path [/search] is taken by the route [/:id], which is
    registered first: whatever the query, the detail handler runs with
    [id = "search"] and answers 400 "Invalid representative ID" without
    sending a statement; the body is not the one of the search handler
    ("Search criteria required"), which no path reaches. *)
Theorem search_path_taken_by_detail_route :
  Routes.route Routes.stack "/search"
  = Some (Routes.detail, {[ "id" := "search" ]})
  ∧ (∀ path params,
       Routes.route Routes.stack path ≠ Some (Routes.search, params))
  ∧ (∀ db query trace,
       Routes.run db Routes.detail {[ "id" := "search" ]} query trace
       = (trace, inr Routes.invalid_id))
  ∧ Routes.response (Routes.handle Seed.db ∅ 0 (Seed.get "/search" ∅))
    = Some Routes.invalid_id
  ∧ Routes.statements (Routes.handle Seed.db ∅ 0 (Seed.get "/search" ∅)) = []
  ∧ Http.status Routes.invalid_id = 400
  ∧ Http.body Routes.invalid_id ≠ Http.body Routes.criteria_required
  ∧ Routes.search_handler Seed.db ∅ [] = ([], inr Routes.criteria_required).
Proof.
  split; [vm_compute; reflexivity|].
  split; [apply search_route_unreachable|]. split.
  { intros db query trace. unfold Routes.run.
    rewrite lookup_singleton_eq. simpl. by apply detail_not_a_number. }
  split; [vm_compute; reflexivity|]. split; [vm_compute; reflexivity|].
  split; [reflexivity|]. split; [discriminate|]. reflexivity.
Qed.

(** C8. An identifier that starts with digits is read by [parseInt] as
    those digits: for the path [/1abc] the statement runs with the
    parameter 1 and the response is the 200 of representative 1, not a 400
    sent before any storage access. *)
Theorem detail_accepts_digit_prefix :
  let result := Routes.handle Seed.db ∅ 0 (Seed.get "/1abc" ∅) in
  Routes.id_number "1abc" = Some 1
  ∧ Routes.statements result = [Storage.detailQuery 1]
  ∧ Http.status <$> Routes.response result = Some 200
  ∧ Http.d_name <$> detail_body (Routes.response result) = Some "Grace Meng".
Proof. vm_compute. repeat split. Qed.

(* ================================================================== *)
(** * The search *)
(* ================================================================== *)

Lemma select_search_rows db conditions limit offset rows :
  Storage.select_search db conditions limit offset = inr rows →
  ∃ l o, limit = Some l ∧ offset = Some o ∧ 0 ≤ l ∧ 0 ≤ o
    ∧ rows
      = take (Z.to_nat l) (drop (Z.to_nat o)
          (merge_sort (Storage.name_order (collation db))
             (remove_dups
                ((λ j : Storage.Joined,
                    Storage.search_columns
                      (Z.of_nat (length (Storage.search_matches db conditions)))
                      j.1.1)
                 <$> Storage.search_matches db conditions)))).
Proof.
  unfold Storage.select_search.
  destruct limit as [l|], offset as [o|]; try done.
  destruct (negb _); [done|].
  destruct (l <? 0) eqn:Hl; [done|]. destruct (o <? 0) eqn:Ho; [done|].
  intros [= <-]. exists l, o. repeat split; lia.
Qed.

Lemma left_join_fst {A B} (on : A → B → bool) (l : list A) (r : list B) x :
  x ∈ Storage.left_join on l r → x.1 ∈ l.
Proof.
  unfold Storage.left_join. intros (a & Hx & Ha)%list_elem_of_bind.
  destruct (filter _ r) as [|b bs].
  - apply list_elem_of_singleton in Hx as ->. done.
  - apply list_elem_of_fmap in Hx as (b' & -> & _). done.
Qed.

Lemma joined_representative db (j : Storage.Joined) :
  j ∈ Storage.joined db → j.1.1 ∈ representatives db.
Proof.
  unfold Storage.joined. intros Hj%left_join_fst. by apply left_join_fst in Hj.
Qed.

Lemma NoDup_fmap_eq {A B} (f : A → B) (l : list A) x y :
  NoDup (f <$> l) → x ∈ l → y ∈ l → f x = f y → x = y.
Proof.
  induction l as [|a l IH]; intros Hdup Hx Hy Hf; [by apply elem_of_nil in Hx|].
  rewrite fmap_cons in Hdup. apply NoDup_cons in Hdup as [Ha Hdup].
  apply elem_of_cons in Hx as [->|Hx], Hy as [->|Hy]; auto.
  - exfalso. apply Ha. rewrite Hf. by apply list_elem_of_fmap_2.
  - exfalso. apply Ha. rewrite <- Hf. by apply list_elem_of_fmap_2.
Qed.

(** The rows of a page are distinct by representative: no identifier
    occurs twice, however many geographies a representative matches
    through. *)
Lemma search_rows_distinct db conditions limit offset rows :
  constraints db →
  Storage.select_search db conditions limit offset = inr rows →
  NoDup (Storage.sr_id <$> rows).
Proof.
  intros Hdb (l & o & _ & _ & _ & _ & ->)%select_search_rows.
  set (w := Z.of_nat (length (Storage.search_matches db conditions))).
  set (all := remove_dups _).
  eapply sublist_NoDup;
    [|apply fmap_sublist; etrans; [apply sublist_take|apply sublist_drop]].
  rewrite merge_sort_Permutation.
  apply NoDup_fmap_2_strong; [|apply NoDup_remove_dups].
  intros x y Hx Hy Hid. subst all.
  apply elem_of_remove_dups, list_elem_of_fmap in Hx as (jx & -> & Hjx).
  apply elem_of_remove_dups, list_elem_of_fmap in Hy as (jy & -> & Hjy).
  apply list_elem_of_filter in Hjx as [_ Hjx%joined_representative].
  apply list_elem_of_filter in Hjy as [_ Hjy%joined_representative].
  simpl in Hid. f_equal.
  eapply NoDup_fmap_eq; [apply (representatives_pkey db Hdb)|done..].
Qed.

(** On a page that is not empty, the total is the number of joined rows
    that match, duplicates included. *)
Lemma search_total_is_window_count db query trace b first rest :
  search_body (answer (Routes.search_handler db query trace)) = Some b →
  Http.results b = first :: rest →
  Http.total (Http.pagination b)
  = Z.of_nat (length (Storage.search_matches db
      (Routes.search_conditions (query !! "name") (query !! "party")
         (query !! "branch") (query !! "state")))).
Proof.
  rewrite search_handler_run. simpl.
  destruct (negb _ && negb _ && negb _ && negb _); [done|].
  unfold answer. simpl.
  destruct (Storage.select_search _ _ _ _) as [|rows] eqn:Hrows; [done|].
  simpl. intros [= <-]. simpl.
  destruct rows as [|row rows]; [done|]. intros _.
  apply select_search_rows in Hrows as (l & o & _ & _ & _ & _ & Hpage).
  assert (Hin : row ∈ row :: rows) by apply list_elem_of_here.
  rewrite Hpage in Hin.
  apply (λ H, elem_of_sublist _ _ _ H (sublist_take _ _)) in Hin.
  apply (λ H, elem_of_sublist _ _ _ H (sublist_drop _ _)) in Hin.
  rewrite merge_sort_Permutation in Hin.
  apply elem_of_remove_dups, list_elem_of_fmap in Hin as (j & -> & _).
  done.
Qed.

(** C4. The total of the pagination is the window count of the joined rows
    that match, taken from the first row of the page: for "Schumer", who
    is mapped to two ZIP codes, the page has the one representative and the
    total is 2; for the state NY the four distinct representatives give the
    total 7, and a page past the end gives the total 0. *)
Theorem search_total_counts_joined_rows :
  let sent query :=
    search_body (answer (Routes.search_handler Seed.db_two_zips query [])) in
  (λ b, Http.s_name <$> Http.results b) <$> sent {[ "name" := "Schumer" ]}
  = Some ["Chuck Schumer"]
  ∧ (λ b, Http.total (Http.pagination b)) <$> sent {[ "name" := "Schumer" ]}
    = Some 2
  ∧ distinct_matching Seed.db_two_zips [Storage.name_ilike "%Schumer%"] = 1
  ∧ (λ b, Http.s_name <$> Http.results b) <$> sent {[ "state" := "NY" ]}
    = Some ["Chuck Schumer"; "Grace Meng"; "Kathy Hochul"; "Kirsten Gillibrand"]
  ∧ (λ b, Http.total (Http.pagination b)) <$> sent {[ "state" := "NY" ]}
    = Some 7
  ∧ distinct_matching Seed.db_two_zips [Storage.state_eq "NY"] = 4
  ∧ (λ b, Http.total (Http.pagination b))
      <$> sent {[ "state" := "NY"; "offset" := "4" ]}
    = Some 0.
Proof. vm_compute. repeat split. Qed.

(** C9. In a search response, [has_more] is true exactly when the number
    of results of the page equals the requested limit, [parseInt(limit)]
    with the default 20. *)
Theorem has_more_iff_page_is_full
    (db : Database) (query : gmap string string)
    (trace : list Storage.Statement) (b : Http.SearchBody) :
  search_body (answer (Routes.search_handler db query trace)) = Some b →
  Http.limit (Http.pagination b) = Routes.parse_or 20 (query !! "limit")
  ∧ (Http.has_more (Http.pagination b) = true
     ↔ Routes.parse_or 20 (query !! "limit")
       = Some (Z.of_nat (length (Http.results b)))).
Proof.
  rewrite search_handler_run. simpl.
  destruct (negb _ && negb _ && negb _ && negb _); [done|].
  unfold answer. simpl.
  destruct (Storage.select_search _ _ _ _) as [|rows]; [done|].
  simpl. intros [= <-]. simpl. split; [done|].
  rewrite length_fmap, bool_decide_eq_true. split; congruence.
Qed.

Lemma has_more_iff_page_is_full_witness :
  ∃ b, search_body
         (answer (Routes.search_handler Seed.db_two_zips
                    {[ "state" := "ny"; "limit" := "4" ]} [])) = Some b
       ∧ length (Http.results b) = 4%nat
       ∧ Http.has_more (Http.pagination b) = true
       ∧ Http.results
           <$> search_body
                 (answer (Routes.search_handler Seed.db_two_zips
                    {[ "state" := "ny"; "limit" := "4"; "offset" := "4" ]} []))
         = Some [].
Proof.
  eexists. split; [vm_compute; reflexivity|].
  split; [reflexivity|]. split; [|vm_compute; reflexivity].
  refine (proj2 (proj2 (has_more_iff_page_is_full Seed.db_two_zips
                          {[ "state" := "ny"; "limit" := "4" ]} [] _ _)) _).
  - vm_compute. reflexivity.
  - vm_compute. reflexivity.
Defined.

(* ================================================================== *)
(** * More on the rate limiter *)
(* ================================================================== *)

(** The limiter treats client keys independently: a call for one key
    leaves the timestamps of every other key alone, and its verdict and
    the timestamps it stores depend on the timestamps of its own key only. *)
Theorem rate_limit_keys_are_independent
    (options : Validation.Options) (key other : string) (now : Z)
    (store store2 : gmap string (list Z)) :
  key ≠ other →
  stored store key = stored store2 key →
  stored (Validation.rateLimit options key now store).2 other
  = stored store other
  ∧ (Validation.rateLimit options key now store).1
    = (Validation.rateLimit options key now store2).1
  ∧ stored (Validation.rateLimit options key now store).2 key
    = stored (Validation.rateLimit options key now store2).2 key.
Proof.
  intros Hne Hsame. unfold Validation.rateLimit. unfold stored in *.
  rewrite Hsame. case_decide; simpl; [done|].
  by rewrite lookup_insert_ne, !lookup_insert_eq.
Qed.

Lemma rate_limit_keys_are_independent_witness :
  stored (Validation.rateLimit Routes.limiter Seed.client 1000000
            (<[other_client := [5]]> Seed.full_store)).2 other_client
  = [5]
  ∧ (Validation.rateLimit Routes.limiter Seed.client 1000000
       (<[other_client := [5]]> Seed.full_store)).1
    = Validation.Reject too_many_requests.
Proof.
  destruct (rate_limit_keys_are_independent Routes.limiter Seed.client
              other_client 1000000
              (<[other_client := [5]]> Seed.full_store) Seed.full_store)
    as (Hother & Hverdict & _).
  - compute_done.
  - vm_compute. reflexivity.
  - split; [rewrite Hother; vm_compute; reflexivity|].
    rewrite Hverdict. vm_compute. reflexivity.
Defined.

(** However many calls a client makes, the number of timestamps kept for
    it never exceeds the larger of the number it started with and
    [maxRequests]. *)
Theorem rate_limit_store_is_bounded
    (options : Validation.Options) (key : string) (times : list Z)
    (store : gmap string (list Z)) :
  Z.of_nat (length (stored (Validation.calls options key times store).2 key))
  ≤ Z.max (Z.of_nat (length (stored store key)))
          (Validation.maxRequests options).
Proof.
  revert store. induction times as [|now later IH]; intros store; [simpl; lia|].
  rewrite calls_cons. simpl.
  destruct (Validation.rateLimit options key now store) as [v s1] eqn:Hstep.
  simpl. specialize (IH s1).
  apply rateLimit_inv in Hstep as [(_ & Hroom & ->)|(_ & _ & ->)]; [|done].
  unfold stored in *. rewrite lookup_insert_eq in IH. simpl in IH.
  rewrite length_app in IH. simpl in IH. lia.
Qed.

(** After an accepted call (with a positive window) every timestamp kept
    for the client lies within the window that ends at the call, and the
    last one is the time of the call. *)
Theorem accepted_call_keeps_current_window
    (options : Validation.Options) (key : string) (now : Z)
    (store store' : gmap string (list Z)) :
  0 < Validation.windowMs options →
  Validation.rateLimit options key now store = (Validation.Accept, store') →
  Forall (λ t, now - Validation.windowMs options < t ∧ t ∈ now :: stored store key)
    (stored store' key)
  ∧ last (stored store' key) = Some now.
Proof.
  intros Hwindow Hstep.
  apply rateLimit_inv in Hstep as [(_ & _ & ->)|([r [=]] & _)].
  unfold stored. rewrite lookup_insert_eq. simpl.
  split; [|by rewrite last_snoc].
  apply Forall_app. split.
  - apply Forall_forall. intros t [Ht Hin]%list_elem_of_filter.
    split; [done|]. by apply elem_of_cons; right.
  - apply Forall_singleton. split; [lia|]. apply list_elem_of_here.
Qed.

Lemma accepted_call_keeps_current_window_witness :
  stored (Validation.rateLimit Routes.limiter Seed.client 1000000
            {[ Seed.client := [0; 950000] ]}).2 Seed.client
  = [950000; 1000000]
  ∧ last (stored (Validation.rateLimit Routes.limiter Seed.client 1000000
                    {[ Seed.client := [0; 950000] ]}).2 Seed.client)
    = Some 1000000.
Proof.
  split; [vm_compute; reflexivity|].
  refine (proj2 (accepted_call_keeps_current_window Routes.limiter Seed.client
                   1000000 {[ Seed.client := [0; 950000] ]} _ _ _)).
  - reflexivity.
  - vm_compute. reflexivity.
Defined.

(* ================================================================== *)
(** * More on the validator of the ZIP lookup *)
(* ================================================================== *)

Lemma createValidator_zip (query : gmap string string) :
  Validation.createValidator "zipQuery" query
  = match query !! "zip" with
    | None =>
        Validation.Respond (validation_failed
          [ {| Http.field := "zip";
               Http.detail_message := "ZIP code is required";
               Http.value := None |} ])
    | Some z =>
        match Validation.zip_rule z with
        | None => Validation.Next {[ "zip" := z ]}
        | Some m =>
            Validation.Respond (validation_failed
              [ {| Http.field := "zip"; Http.detail_message := m;
                   Http.value := Some z |} ])
        end
    end.
Proof.
  unfold Validation.createValidator, Validation.schemas.
  rewrite lookup_singleton_eq. unfold Validation.validate.
  rewrite validated_value. simpl. unfold Validation.check_key. simpl.
  destruct (query !! "zip") as [z|]; [|done].
  by destruct (Validation.zip_rule z).
Qed.

Lemma zip_rule_passes (z : string) :
  Validation.zip_rule z = None ↔ Validation.five_digits z = true.
Proof.
  unfold Validation.zip_rule. destruct z as [|c z]; [done|].
  by destruct (Validation.five_digits (String c z)).
Qed.

(** The validator lets a query pass exactly when [zip] is present and is
    five ASCII digits, and what it passes on is the query reduced to
    [zip]. *)
Theorem validator_passes_five_digit_zip
    (query validated : gmap string string) :
  Validation.createValidator "zipQuery" query = Validation.Next validated
  ↔ ∃ z, query !! "zip" = Some z
         ∧ String.length z = 5%nat
         ∧ JS.all_chars (JS.in_range 48 57) z = true
         ∧ validated = {[ "zip" := z ]}.
Proof.
  rewrite createValidator_zip. split.
  - destruct (query !! "zip") as [z|]; [|done].
    destruct (Validation.zip_rule z) eqn:Hrule; [done|].
    intros [= <-]. apply zip_rule_passes in Hrule.
    unfold Validation.five_digits in Hrule.
    apply andb_true_iff in Hrule as [Hlen%Nat.eqb_eq Hdigits].
    by exists z.
  - intros (z & -> & Hlen & Hdigits & ->).
    assert (Hrule : Validation.zip_rule z = None).
    { apply zip_rule_passes. unfold Validation.five_digits.
      apply andb_true_iff. split; [by apply Nat.eqb_eq|done]. }
    by rewrite Hrule.
Qed.

(** Validation is idempotent: a validated query passes the validator
    unchanged. *)
Theorem validator_is_idempotent (query validated : gmap string string) :
  Validation.createValidator "zipQuery" query = Validation.Next validated →
  Validation.createValidator "zipQuery" validated = Validation.Next validated.
Proof.
  rewrite !createValidator_zip.
  destruct (query !! "zip") as [z|]; [|done].
  destruct (Validation.zip_rule z) eqn:Hrule; [done|].
  intros [= <-]. by rewrite lookup_singleton_eq, Hrule.
Qed.

Lemma validator_is_idempotent_witness :
  Validation.createValidator "zipQuery"
    {[ "zip" := "11354"; "branch" := "federal" ]}
  = Validation.Next {[ "zip" := "11354" ]}
  ∧ Validation.createValidator "zipQuery" {[ "zip" := "11354" ]}
    = Validation.Next {[ "zip" := "11354" ]}.
Proof.
  assert (H : Validation.createValidator "zipQuery"
                {[ "zip" := "11354"; "branch" := "federal" ]}
              = Validation.Next {[ "zip" := "11354" ]})
    by (vm_compute; reflexivity).
  split; [exact H|].
  exact (validator_is_idempotent _ _ H).
Defined.

(** A query that does not pass is answered 422 "Validation failed" with
    exactly one detail: its field is [zip] and its value is the offending
    value of the request (absent when [zip] is missing). *)
Theorem validator_reports_the_zip
    (query : gmap string string) (r : Http.Response) :
  Validation.createValidator "zipQuery" query = Validation.Respond r →
  ∃ d, r = validation_failed [d]
       ∧ Http.field d = "zip"
       ∧ Http.value d = query !! "zip"
       ∧ (query !! "zip" = None
          → Http.detail_message d = "ZIP code is required").
Proof.
  rewrite createValidator_zip.
  destruct (query !! "zip") as [z|].
  - destruct (Validation.zip_rule z); [|done].
    intros [= <-]. eexists. repeat split. done.
  - intros [= <-]. eexists. repeat split.
Qed.

Lemma validator_reports_the_zip_witness :
  ∃ d, Validation.createValidator "zipQuery" {[ "zip" := "1135" ]}
       = Validation.Respond (validation_failed [d])
       ∧ Http.value d = Some "1135"
       ∧ Http.detail_message d = "ZIP code must be exactly 5 digits".
Proof.
  eexists. split; [vm_compute; reflexivity|].
  split; [|reflexivity].
  destruct (validator_reports_the_zip {[ "zip" := "1135" ]}
              (validation_failed
                 [ {| Http.field := "zip";
                      Http.detail_message := "ZIP code must be exactly 5 digits";
                      Http.value := Some "1135" |} ]))
    as (d & Hd & _ & Hvalue & _); [vm_compute; reflexivity|].
  reflexivity.
Defined.

(* ================================================================== *)
(** * More on the ZIP lookup *)
(* ================================================================== *)

Lemma inner_join_elem {A B} (on : A → B → bool) (l : list A) (r : list B) x :
  x ∈ Storage.inner_join on l r ↔ x.1 ∈ l ∧ x.2 ∈ r ∧ on x.1 x.2 = true.
Proof.
  unfold Storage.inner_join. rewrite list_elem_of_bind. split.
  - intros (a & (b & Hx & Hb)%list_elem_of_bind & Ha).
    destruct (on a b) eqn:Hon; [|by apply elem_of_nil in Hx].
    apply list_elem_of_singleton in Hx as ->. done.
  - intros (Ha & Hb & Hon). destruct x as [a b]. simpl in *.
    exists a. split; [|done]. apply list_elem_of_bind. exists b.
    split; [|done]. rewrite Hon. apply list_elem_of_here.
Qed.

(** The rows of the representatives statement are the pairs of a
    representative and a mapping of theirs to the geography that satisfy the
    appended conditions. *)
Lemma select_representatives_elem db geography_id conditions row :
  row ∈ Storage.select_representatives db geography_id conditions
  ↔ ∃ r m, r ∈ representatives db ∧ m ∈ rep_geography_map db
           ∧ rgm_representative_id m = r_id r
           ∧ rgm_geography_id m = geography_id
           ∧ forallb (Storage.holds r None) conditions = true
           ∧ row = (r, rgm_jurisdiction_level m).
Proof.
  unfold Storage.select_representatives.
  rewrite merge_sort_Permutation, list_elem_of_fmap. split.
  - intros ([r m] & -> & [[Hgeo Hconds] Hjoin%inner_join_elem]%list_elem_of_filter).
    destruct Hjoin as (Hr & Hm & Hon%bool_decide_eq_true). simpl in *.
    exists r, m. done.
  - intros (r & m & Hr & Hm & Hid & Hgeo & Hconds & ->).
    exists (r, m). split; [done|]. apply list_elem_of_filter.
    split; [done|]. apply inner_join_elem. simpl.
    repeat split; [done..|]. by apply bool_decide_eq_true.
Qed.

(** What the conditions of the ZIP lookup ask of a representative. *)
Lemma zip_conditions_hold (include_inactive : string) (branch : option string)
    (r : Representative) :
  forallb (Storage.holds r None)
    (Routes.zip_conditions include_inactive branch) = true
  ↔ (include_inactive = "true" ∨ r_is_active r = Some true)
    ∧ (JS.truthy branch = true → branch = Some (branch_text (r_branch r))).
Proof.
  unfold Routes.zip_conditions.
  rewrite forallb_app, andb_true_iff.
  assert (Hactive :
    forallb (Storage.holds r None)
      (if bool_decide (include_inactive ≠ "true")
       then [Storage.is_active_true] else []) = true
    ↔ include_inactive = "true" ∨ r_is_active r = Some true).
  { case_bool_decide as Hinc; simpl.
    - rewrite andb_true_r, bool_decide_eq_true. split; [by right|].
      by intros [?|?].
    - split; [by left|done]. }
  assert (Hbranch :
    forallb (Storage.holds r None)
      (if JS.truthy branch
       then [Storage.branch_eq (default EmptyString branch)] else []) = true
    ↔ (JS.truthy branch = true → branch = Some (branch_text (r_branch r)))).
  { destruct branch as [[|c w]|]; simpl; [by split| |by split].
    rewrite andb_true_r, bool_decide_eq_true. split.
    - by intros <- _.
    - intros Hw. specialize (Hw eq_refl). by injection Hw. }
  by rewrite Hactive, Hbranch.
Qed.

(** The 200 body of the handler, read off the geography row and the rows
    of the representatives statement. *)
Lemma zip_handler_body db query trace b :
  zip_body (answer (Routes.zip_handler db query trace)) = Some b →
  ∃ g rest,
    Storage.select_geography db (query !! "zip") = g :: rest
    ∧ Routes.zip_response g
        (default "false" (query !! "include_inactive")) (query !! "branch")
        (Storage.select_representatives db (g_id g)
           (Routes.zip_conditions
              (default "false" (query !! "include_inactive"))
              (query !! "branch")))
      = Http.json (Http.ZipLookup b).
Proof.
  rewrite zip_handler_run. simpl.
  destruct (Storage.select_geography db (query !! "zip")) as [|g rest] eqn:Hg;
    [done|].
  unfold answer. simpl. intros [= <-]. by exists g, rest.
Qed.

Lemma zip_handler_members db query trace b :
  zip_body (answer (Routes.zip_handler db query trace)) = Some b →
  ∃ g rest,
    Storage.select_geography db (query !! "zip") = g :: rest
    ∧ Http.zb_zip b = g_zip_code g
    ∧ Http.meta_branch_filter b
      = (if JS.truthy (query !! "branch")
         then default EmptyString (query !! "branch") else "all")
    ∧ ∀ x, x ∈ Http.all b
        ↔ ∃ r m, r ∈ representatives db ∧ m ∈ rep_geography_map db
                 ∧ rgm_representative_id m = r_id r
                 ∧ rgm_geography_id m = g_id g
                 ∧ (query !! "include_inactive" = Some "true"
                    ∨ r_is_active r = Some true)
                 ∧ (JS.truthy (query !! "branch") = true
                    → query !! "branch" = Some (branch_text (r_branch r)))
                 ∧ x = Routes.format_rep (r, rgm_jurisdiction_level m).
Proof.
  intros (g & rest & Hg & Hbody)%zip_handler_body.
  injection Hbody as <-. simpl.
  exists g, rest. split; [done|]. split; [done|]. split; [done|].
  intros x. rewrite list_elem_of_fmap.
  setoid_rewrite select_representatives_elem.
  setoid_rewrite zip_conditions_hold.
  assert (Hinc : default "false" (query !! "include_inactive") = "true"
                 ↔ query !! "include_inactive" = Some "true").
  { destruct (query !! "include_inactive"); simpl; split; congruence. }
  split.
  - intros (row & -> & r & m & Hr & Hm & Hid & Hgeo & [Hact Hbr] & ->).
    exists r, m. rewrite Hinc in Hact. done.
  - intros (r & m & Hr & Hm & Hid & Hgeo & Hact & Hbr & ->).
    exists (r, rgm_jurisdiction_level m). split; [done|].
    exists r, m. rewrite Hinc. done.
Qed.

(** The ZIP lookup returns the representatives mapped to the geography row
    of the requested ZIP code, and no others: a representative is in the
    response exactly when a mapping links them to that row, they are active
    (unless [include_inactive] is ["true"]) and their branch is the requested
    one (if one is requested).  The response repeats the ZIP code. *)
Theorem zip_lookup_returns_the_mapped
    (db : Database) (query : gmap string string)
    (trace : list Storage.Statement) (b : Http.ZipBody) :
  zip_body (answer (Routes.zip_handler db query trace)) = Some b →
  ∃ g, g ∈ geography db
       ∧ query !! "zip" = Some (g_zip_code g)
       ∧ Http.zb_zip b = g_zip_code g
       ∧ ∀ x, x ∈ Http.all b
           ↔ ∃ r m, r ∈ representatives db ∧ m ∈ rep_geography_map db
                    ∧ rgm_representative_id m = r_id r
                    ∧ rgm_geography_id m = g_id g
                    ∧ (query !! "include_inactive" = Some "true"
                       ∨ r_is_active r = Some true)
                    ∧ (JS.truthy (query !! "branch") = true
                       → query !! "branch" = Some (branch_text (r_branch r)))
                    ∧ x = Routes.format_rep (r, rgm_jurisdiction_level m).
Proof.
  intros (g & rest & Hg & Hecho & _ & Hall)%zip_handler_members.
  assert (Hin : g ∈ Storage.select_geography db (query !! "zip")).
  { rewrite Hg. apply list_elem_of_here. }
  apply list_elem_of_filter in Hin as [Hzip Hin].
  by exists g.
Qed.

Lemma zip_lookup_returns_the_mapped_witness :
  ∃ b, zip_body (answer (Routes.zip_handler Seed.db_two_zips
                           {[ "zip" := "10001" ]} [])) = Some b
       ∧ Http.zb_zip b = "10001"
       ∧ Http.id <$> Http.all b = [2; 3; 4].
Proof.
  eexists. split; [vm_compute; reflexivity|]. split; [|reflexivity].
  match goal with
  | |- Http.zb_zip ?b = _ =>
      destruct (zip_lookup_returns_the_mapped Seed.db_two_zips
                  {[ "zip" := "10001" ]} [] b)
        as (g & _ & Hzip & Hecho & _); [vm_compute; reflexivity|]
  end.
  rewrite Hecho. rewrite lookup_singleton_eq in Hzip. congruence.
Defined.

(** In a list sorted by branch rank the three buckets, one after the
    other, are the list itself. *)
Lemma sorted_buckets (order : Collation) (l : list Http.Rep) :
  StronglySorted (view_order order) l →
  filter (λ rep, Http.branch rep = federal) l
  ++ filter (λ rep, Http.branch rep = state) l
  ++ filter (λ rep, Http.branch rep = local) l = l.
Proof.
  induction 1 as [|x l Hsorted IH Hx]; [done|].
  assert (Hrank : Forall (λ y, Storage.branch_rank (Http.branch x)
                               ≤ Storage.branch_rank (Http.branch y)) l).
  { eapply Forall_impl; [exact Hx|]. intros y [?|[? _]]; lia. }
  assert (Hnone : ∀ c,
    Storage.branch_rank c < Storage.branch_rank (Http.branch x) →
    filter (λ rep, Http.branch rep = c) l = []).
  { intros c Hc. apply filter_drops_all, Forall_forall. intros y Hy Heq.
    eapply Forall_forall in Hrank; [|exact Hy]. simpl in Hrank.
    rewrite Heq in Hrank. lia. }
  rewrite !filter_cons.
  destruct (Http.branch x) eqn:Hbranch; repeat case_decide; try done; simpl.
  - by rewrite IH.
  - rewrite (Hnone federal) in IH |- * by (simpl; lia).
    simpl in *. by rewrite IH.
  - rewrite (Hnone federal), (Hnone state) in IH |- * by (simpl; lia).
    simpl in *. by rewrite IH.
Qed.

(** Grouping and ordering agree: in a ZIP lookup response (of the handler
    or of the router) the list of all representatives is the federal bucket
    followed by the state bucket followed by the local bucket, every member
    of a bucket has the branch of the bucket, and [count] is the sum of the
    sizes of the buckets. *)
Theorem zip_lookup_buckets_partition (db : Database) (b : Http.ZipBody) :
  (∃ query trace,
      zip_body (answer (Routes.zip_handler db query trace)) = Some b)
  ∨ (∃ store now req,
      zip_body (Routes.response (Routes.handle db store now req)) = Some b) →
  Http.all b = federal_bucket b ++ state_bucket b ++ local_bucket b
  ∧ Forall (λ x, Http.branch x = federal) (federal_bucket b)
  ∧ Forall (λ x, Http.branch x = state) (state_bucket b)
  ∧ Forall (λ x, Http.branch x = local) (local_bucket b)
  ∧ Http.count b
    = (length (federal_bucket b) + length (state_bucket b)
       + length (local_bucket b))%nat.
Proof.
  intros Hb.
  assert (∃ query trace,
    zip_body (answer (Routes.zip_handler db query trace)) = Some b)
    as (query & trace & (g & rest & _ & Hbody)%zip_handler_body).
  { destruct Hb as [Hb|(store & now & req & (z & _ & Hb)%handle_zip_body)];
      [done|eauto]. }
  injection Hbody as <-.
  unfold federal_bucket, state_bucket, local_bucket. simpl.
  pose proof (sorted_buckets _ _ (select_representatives_sorted db (g_id g)
    (Routes.zip_conditions (default "false" (query !! "include_inactive"))
       (query !! "branch")))) as Hparts.
  split; [done|].
  split; [apply Forall_forall; by intros x [? _]%list_elem_of_filter|].
  split; [apply Forall_forall; by intros x [? _]%list_elem_of_filter|].
  split; [apply Forall_forall; by intros x [? _]%list_elem_of_filter|].
  rewrite <- !length_app. by rewrite <- app_assoc, Hparts.
Qed.

Lemma zip_lookup_buckets_partition_witness :
  ∃ b, zip_body (Routes.response
                   (Routes.handle Seed.db ∅ 0
                      (Seed.get "/" {[ "zip" := "11354" ]}))) = Some b
       ∧ Http.count b = 4%nat
       ∧ Http.all b = federal_bucket b ++ state_bucket b ++ local_bucket b.
Proof.
  eexists. split; [vm_compute; reflexivity|]. split; [reflexivity|].
  refine (proj1 (zip_lookup_buckets_partition Seed.db _ _)). right.
  exists ∅, 0, (Seed.get "/" {[ "zip" := "11354" ]}).
  vm_compute. reflexivity.
Defined.

(** Given to the handler, a branch filter restricts the response to that
    branch and is repeated in [meta.branch_filter]; a word that is not one
    of the three branches gives a 200 with no representatives. *)
Theorem handler_branch_filter
    (db : Database) (query : gmap string string)
    (trace : list Storage.Statement) (b : Http.ZipBody) (w : string) :
  zip_body (answer (Routes.zip_handler db query trace)) = Some b →
  query !! "branch" = Some w → w ≠ EmptyString →
  Forall (λ x, branch_text (Http.branch x) = w) (Http.all b)
  ∧ Http.meta_branch_filter b = w
  ∧ (w ∉ ["federal"; "state"; "local"] → Http.all b = [] ∧ Http.count b = 0%nat).
Proof.
  intros Hb Hw Hne.
  pose proof Hb as (g & rest & _ & Hbody)%zip_handler_body.
  apply zip_handler_members in Hb as (g2 & rest2 & _ & _ & Hmeta & Hall).
  assert (Htruthy : JS.truthy (query !! "branch") = true).
  { rewrite Hw. by destruct w. }
  assert (Hfilter : Forall (λ x, branch_text (Http.branch x) = w) (Http.all b)).
  { apply Forall_forall. intros x (r & m & _ & _ & _ & _ & _ & Hbr & ->)%Hall.
    specialize (Hbr Htruthy). rewrite Hw in Hbr. by injection Hbr as ->. }
  split; [done|]. split; [by rewrite Hmeta, Htruthy, Hw|].
  intros Hword.
  assert (Hempty : Http.all b = []).
  { destruct (Http.all b) as [|x l]; [done|exfalso].
    apply Forall_cons in Hfilter as [Hx _]. apply Hword. rewrite <- Hx.
    destruct (Http.branch x); simpl;
      [|apply list_elem_of_further..]; [| |apply list_elem_of_further];
      apply list_elem_of_here. }
  split; [done|]. injection Hbody as <-. simpl in *.
  by rewrite Hempty.
Qed.

Lemma handler_branch_filter_witness :
  ∃ b, zip_body (answer (Routes.zip_handler Seed.db
                   {[ "zip" := "11354"; "branch" := "state" ]} [])) = Some b
       ∧ Http.name <$> Http.all b = ["Kathy Hochul"]
       ∧ Http.meta_branch_filter b = "state".
Proof.
  eexists. split; [vm_compute; reflexivity|]. split; [reflexivity|].
  match goal with
  | |- Http.meta_branch_filter ?b = _ =>
      refine (proj1 (proj2 (handler_branch_filter Seed.db
                {[ "zip" := "11354"; "branch" := "state" ]} [] b "state"
                _ _ _)))
  end.
  - vm_compute. reflexivity.
  - vm_compute. reflexivity.
  - discriminate.
Defined.

(** Given to the handler, a query whose [include_inactive] is not the
    string ["true"] gets active representatives only. *)
Theorem handler_default_only_active
    (db : Database) (query : gmap string string)
    (trace : list Storage.Statement) (b : Http.ZipBody) :
  zip_body (answer (Routes.zip_handler db query trace)) = Some b →
  query !! "include_inactive" ≠ Some "true" →
  Forall (λ x, Http.is_active x = Some true) (Http.all b)
  ∧ Http.meta_include_inactive b = false.
Proof.
  intros Hb Hinc.
  pose proof Hb as (g & rest & _ & Hbody)%zip_handler_body.
  apply zip_handler_members in Hb as (g2 & rest2 & _ & _ & _ & Hall).
  split.
  - apply Forall_forall.
    intros x (r & m & _ & _ & _ & _ & [?|Hact] & _ & ->)%Hall; done.
  - injection Hbody as <-. simpl. apply bool_decide_eq_false.
    destruct (query !! "include_inactive"); simpl; congruence.
Qed.

Lemma handler_default_only_active_witness :
  ∃ b, zip_body (answer (Routes.zip_handler Seed.db_with_inactive
                   {[ "zip" := "11354"; "include_inactive" := "TRUE" ]} []))
       = Some b
       ∧ Http.id <$> Http.all b = [2; 1; 3; 4]
       ∧ Http.meta_include_inactive b = false.
Proof.
  eexists. split; [vm_compute; reflexivity|]. split; [reflexivity|].
  match goal with
  | |- Http.meta_include_inactive ?b = _ =>
      refine (proj2 (handler_default_only_active Seed.db_with_inactive
                {[ "zip" := "11354"; "include_inactive" := "TRUE" ]} [] b _ _))
  end.
  - vm_compute. reflexivity.
  - vm_compute. discriminate.
Defined.

(** Given to the handler, [include_inactive=true] only adds to the
    response: whenever the lookup of a query succeeds, so does the lookup
    of the query with [include_inactive] set to ["true"], and it returns
    every representative of the first. *)
Theorem handler_include_inactive_superset
    (db : Database) (query : gmap string string)
    (trace trace' : list Storage.Statement) (b : Http.ZipBody) :
  zip_body (answer (Routes.zip_handler db query trace)) = Some b →
  ∃ b', zip_body
          (answer (Routes.zip_handler db
                     (<["include_inactive" := "true"]> query) trace'))
        = Some b'
        ∧ Http.all b ⊆ Http.all b'
        ∧ Http.meta_include_inactive b' = true.
Proof.
  intros (g & rest & Hg & _ & _ & Hall)%zip_handler_members.
  set (query' := <["include_inactive" := "true"]> query).
  assert (Hzip : query' !! "zip" = query !! "zip") by by apply lookup_insert_ne.
  assert (Hbranch : query' !! "branch" = query !! "branch")
    by by apply lookup_insert_ne.
  assert (Hinc : query' !! "include_inactive" = Some "true")
    by apply lookup_insert_eq.
  destruct (zip_body (answer (Routes.zip_handler db query' trace')))
    as [b'|] eqn:Hb'.
  - exists b'. split; [done|].
    pose proof Hb' as (g' & rest' & _ & Hbody')%zip_handler_body.
    apply zip_handler_members in Hb' as (g2 & rest2 & Hg2 & _ & _ & Hall').
    rewrite Hzip, Hg in Hg2. injection Hg2 as <- <-. split.
    + intros x (r & m & Hr & Hm & Hid & Hgeo & _ & Hbr & ->)%Hall.
      apply Hall'. exists r, m. rewrite Hbranch, Hinc.
      repeat split; try done. by left.
    + injection Hbody' as <-. simpl. rewrite Hinc. done.
  - exfalso. revert Hb'. rewrite zip_handler_run. simpl.
    rewrite Hzip, Hg. done.
Qed.

Lemma handler_include_inactive_superset_witness :
  ∃ b b',
    zip_body (answer (Routes.zip_handler Seed.db_with_inactive
                        {[ "zip" := "11354" ]} [])) = Some b
    ∧ zip_body (answer (Routes.zip_handler Seed.db_with_inactive
                          (<["include_inactive" := "true"]>
                             {[ "zip" := "11354" ]}) [])) = Some b'
    ∧ Http.id <$> Http.all b = [2; 1; 3; 4]
    ∧ Http.id <$> Http.all b' = [2; 1; 3; 5; 4]
    ∧ Http.all b ⊆ Http.all b'.
Proof.
  eexists. eexists. split; [vm_compute; reflexivity|].
  split; [vm_compute; reflexivity|].
  split; [reflexivity|]. split; [reflexivity|].
  match goal with
  | |- Http.all ?b ⊆ Http.all ?b' =>
      destruct (handler_include_inactive_superset Seed.db_with_inactive
                  {[ "zip" := "11354" ]} [] [] b)
        as (b2 & Hb2 & Hsub & _); [vm_compute; reflexivity|]
  end.
  vm_compute in Hb2. injection Hb2 as <-. exact Hsub.
Defined.

(* ================================================================== *)
(** * More on the detail lookup *)
(* ================================================================== *)

Lemma left_join_elem {A B} (on : A → B → bool) (l : list A) (r : list B) x :
  x ∈ Storage.left_join on l r
  ↔ x.1 ∈ l
    ∧ match x.2 with
      | Some b => b ∈ r ∧ on x.1 b = true
      | None => ∀ b, b ∈ r → on x.1 b ≠ true
      end.
Proof.
  unfold Storage.left_join. rewrite list_elem_of_bind. split.
  - intros (a & Hx & Ha).
    destruct (filter (λ b, on a b = true) r) as [|b0 bs] eqn:Hfilter.
    + apply list_elem_of_singleton in Hx as ->. simpl. split; [done|].
      intros b Hb Hon. revert Hb.
      by apply (filter_nil_not_elem_of _ _ _ Hfilter).
    + apply list_elem_of_fmap in Hx as (b & -> & Hb). simpl.
      rewrite <- Hfilter in Hb. apply list_elem_of_filter in Hb as [Hon Hb].
      done.
  - destruct x as [a [b|]]; simpl.
    + intros (Ha & Hb & Hon). exists a. split; [|done].
      assert (Hin : b ∈ filter (λ b, on a b = true) r)
        by by apply list_elem_of_filter.
      destruct (filter (λ b, on a b = true) r) as [|b0 bs];
        [by apply elem_of_nil in Hin|].
      by apply (list_elem_of_fmap_2 (λ b, (a, Some b)) (b0 :: bs)).
    + intros (Ha & Hnone). exists a. split; [|done].
      rewrite filter_drops_all; [apply list_elem_of_here|].
      apply Forall_forall. intros b Hb. by apply Hnone.
Qed.

(** The joined rows that carry a geography: a representative, one of their
    mappings and the geography of the mapping. *)
Lemma joined_with_geography db (r : Representative) (g : Geography) :
  (∃ om, (r, om, Some g) ∈ Storage.joined db)
  ↔ r ∈ representatives db ∧ g ∈ geography db
    ∧ ∃ m, m ∈ rep_geography_map db
           ∧ rgm_representative_id m = r_id r
           ∧ rgm_geography_id m = g_id g.
Proof.
  unfold Storage.joined. split.
  - intros (om & Hj). apply left_join_elem in Hj as [Hleft [Hg Hon]].
    simpl in *. destruct om as [m|]; [|done].
    apply bool_decide_eq_true in Hon.
    apply left_join_elem in Hleft as [Hr [Hm Hid%bool_decide_eq_true]].
    simpl in *. split; [done|]. split; [done|]. by exists m.
  - intros (Hr & Hg & m & Hm & Hid & Hgeo). exists (Some m).
    apply left_join_elem. simpl. split.
    + apply left_join_elem. simpl. split; [done|]. split; [done|].
      by apply bool_decide_eq_true.
    + split; [done|]. by apply bool_decide_eq_true.
Qed.

(** For the identifier of a stored representative the detail lookup sends
    its one statement and answers 200 with that identifier; the served
    areas are exactly the geographies that a mapping links to them, so no
    area lacks a ZIP code and a representative without mappings has no
    area. *)
Theorem detail_lists_the_mapped_areas
    (db : Database) (id : string) (n : Z) (r : Representative)
    (trace : list Storage.Statement) :
  Routes.id_number id = Some n → Storage.in_int4 n = true →
  r ∈ representatives db → r_id r = n →
  ∃ b, Routes.detail_handler db id trace
       = (trace ++ [Storage.detailQuery n],
          inr (Http.json (Http.Detail b)))
       ∧ Http.d_id b = n
       ∧ (∀ a, a ∈ Http.served_areas b
             ↔ ∃ m g, m ∈ rep_geography_map db ∧ g ∈ geography db
                      ∧ rgm_representative_id m = n
                      ∧ rgm_geography_id m = g_id g
                      ∧ a = Storage.area_of (Some g))
       ∧ Forall (λ a, Http.area_zip_code a ≠ None) (Http.served_areas b)
       ∧ (Forall (λ m, rgm_representative_id m ≠ n) (rep_geography_map db)
          → Http.served_areas b = []).
Proof.
  intros Hid Hrange Hr Hn. rewrite detail_handler_run, Hid.
  unfold Storage.select_detail. rewrite Hrange.
  assert (Hin : r ∈ filter (λ r, r_id r = n) (representatives db))
    by by apply list_elem_of_filter.
  destruct (filter (λ r, r_id r = n) (representatives db)) as [|r0 rs] eqn:Hf;
    [by apply elem_of_nil in Hin|].
  assert (Hr0 : r_id r0 = n).
  { assert (H0 : r0 ∈ filter (λ r, r_id r = n) (representatives db))
      by (rewrite Hf; apply list_elem_of_here).
    by apply list_elem_of_filter in H0 as [? _]. }
  simpl. eexists. split; [reflexivity|]. simpl. split; [done|].
  assert (Hareas : ∀ a,
    a ∈ filter (λ area, Http.area_zip_code area ≠ None)
          ((λ j : Storage.Joined, Storage.area_of j.2) <$>
           filter (λ j : Storage.Joined, r_id j.1.1 = r_id r0)
             (Storage.joined db))
    ↔ ∃ m g, m ∈ rep_geography_map db ∧ g ∈ geography db
             ∧ rgm_representative_id m = n
             ∧ rgm_geography_id m = g_id g
             ∧ a = Storage.area_of (Some g)).
  { intros a. rewrite list_elem_of_filter, list_elem_of_fmap. split.
    - intros (Hzip & [[r' om] og] & -> & [Hsame Hj]%list_elem_of_filter).
      simpl in *. destruct og as [g|]; [|done].
      assert (Hjoined : ∃ om, (r', om, Some g) ∈ Storage.joined db) by eauto.
      apply joined_with_geography in Hjoined
        as (_ & Hg & m & Hm & Hmid & Hgeo).
      exists m, g. repeat split; [done..|congruence|done].
    - intros (m & g & Hm & Hg & Hmid & Hgeo & ->). split; [done|].
      destruct (proj2 (joined_with_geography db r g)) as [om Hj].
      { split; [done|]. split; [done|]. exists m. split; [done|].
        split; [congruence|done]. }
      exists (r, om, Some g). split; [done|].
      apply list_elem_of_filter. split; [simpl; congruence|done]. }
  split; [exact Hareas|]. split.
  - apply Forall_forall. by intros a [Hzip _]%list_elem_of_filter.
  - intros Hnone.
    match goal with |- ?l = [] => destruct l as [|a l'] eqn:Hl end; [done|].
    exfalso.
    assert (Ha : a ∈ a :: l') by apply list_elem_of_here.
    apply Hareas in Ha as (m & g & Hm & _ & Hmid & _).
    eapply Forall_forall in Hnone; [|exact Hm]. done.
Qed.

Lemma detail_lists_the_mapped_areas_witness :
  ∃ b, Routes.detail_handler Seed.db_two_zips "2" []
       = ([Storage.detailQuery 2], inr (Http.json (Http.Detail b)))
       ∧ Http.area_zip_code <$> Http.served_areas b
         = [Some "11354"; Some "10001"]
       ∧ Http.d_id b = 2.
Proof.
  eexists. split; [vm_compute; reflexivity|]. split; [reflexivity|].
  destruct (detail_lists_the_mapped_areas Seed.db_two_zips "2" 2
              Seed.chuck_schumer [])
    as (b & Hrun & Hid & _).
  - reflexivity.
  - reflexivity.
  - apply list_elem_of_further, list_elem_of_here.
  - reflexivity.
  - vm_compute in Hrun. injection Hrun as <-. exact Hid.
Defined.

(* ================================================================== *)
(** * More on the search *)
(* ================================================================== *)

Lemma StronglySorted_sublist {A} (R : relation A) (l k : list A) :
  StronglySorted R l → k `sublist_of` l → StronglySorted R k.
Proof.
  intros Hsorted. revert k.
  induction Hsorted as [|x l Hl IH Hx]; intros k Hk.
  - apply sublist_nil_r in Hk as ->. constructor.
  - apply sublist_cons_r in Hk as [Hk|(k' & -> & Hk')]; [by apply IH|].
    constructor; [by apply IH|].
    apply Forall_forall. intros y Hy.
    eapply Forall_forall in Hx; [done|]. by eapply elem_of_sublist.
Qed.


(** The 200 body of the search handler, read off the rows of the search
    statement. *)
Lemma search_handler_body db query trace b :
  search_body (answer (Routes.search_handler db query trace)) = Some b →
  ∃ rows,
    Storage.select_search db
      (Routes.search_conditions (query !! "name") (query !! "party")
         (query !! "branch") (query !! "state"))
      (Routes.parse_or 20 (query !! "limit"))
      (Routes.parse_or 0 (query !! "offset")) = inr rows
    ∧ Routes.search_response (query !! "name") (query !! "party")
        (query !! "branch") (query !! "state")
        (Routes.parse_or 20 (query !! "limit"))
        (Routes.parse_or 0 (query !! "offset")) rows
      = Http.json (Http.Search b).
Proof.
  rewrite search_handler_run. simpl.
  destruct (negb _ && negb _ && negb _ && negb _); [done|].
  unfold answer. simpl.
  destruct (Storage.select_search _ _ _ _) as [|rows]; [done|].
  simpl. intros [= <-]. by exists rows.
Qed.



(** The results of a search are in non-decreasing order of name, in the
    collation of the database, whichever it is, and a page never has more
    results than the requested limit. *)
Theorem search_page_is_sorted_and_bounded
    (db : Database) (query : gmap string string)
    (trace : list Storage.Statement) (b : Http.SearchBody) :
  search_body (answer (Routes.search_handler db query trace)) = Some b →
  StronglySorted
    (λ x y, Storage.text_le (collation db) (Http.s_name x) (Http.s_name y))
    (Http.results b)
  ∧ ∃ l, Routes.parse_or 20 (query !! "limit") = Some l ∧ 0 ≤ l
         ∧ Z.of_nat (length (Http.results b)) ≤ l.
Proof.
  intros (rows & Hrows & Hbody)%search_handler_body.
  injection Hbody as <-. simpl.
  apply select_search_rows in Hrows as (l & o & Hl & _ & Hl0 & _ & ->).
  split.
  - apply (StronglySorted_fmap Routes.format_result
             (Storage.name_order (collation db))).
    + intros x y Hxy. exact Hxy.
    + eapply StronglySorted_sublist;
        [apply StronglySorted_merge_sort; apply _|].
      etrans; [apply sublist_take|apply sublist_drop].
  - exists l. split; [done|]. split; [done|].
    rewrite length_fmap, length_take. lia.
Qed.

Lemma search_page_is_sorted_and_bounded_witness :
  (∃ b, search_body
          (answer (Routes.search_handler (Seed.db_lower_case Seed.bytewise)
                     {[ "state" := "NY"; "limit" := "3" ]} [])) = Some b
        ∧ Http.s_name <$> Http.results b
          = ["Chuck Schumer"; "Grace Meng"; "Kathy Hochul"]
        ∧ StronglySorted
            (λ x y, Storage.text_le Seed.bytewise
                      (Http.s_name x) (Http.s_name y))
            (Http.results b))
  ∧ (∃ b, search_body
            (answer (Routes.search_handler
                       (Seed.db_lower_case Seed.ignoring_case)
                       {[ "state" := "NY"; "limit" := "3" ]} [])) = Some b
          ∧ Http.s_name <$> Http.results b
            = ["alice adams"; "bob brown"; "Chuck Schumer"]
          ∧ StronglySorted
              (λ x y, Storage.text_le Seed.ignoring_case
                        (Http.s_name x) (Http.s_name y))
              (Http.results b)).
Proof.
  split.
  - eexists. split; [vm_compute; reflexivity|]. split; [reflexivity|].
    match goal with
    | |- StronglySorted _ (Http.results ?b) =>
        refine (proj1 (search_page_is_sorted_and_bounded
                         (Seed.db_lower_case Seed.bytewise)
                         {[ "state" := "NY"; "limit" := "3" ]} [] b _))
    end.
    vm_compute. reflexivity.
  - eexists. split; [vm_compute; reflexivity|]. split; [reflexivity|].
    match goal with
    | |- StronglySorted _ (Http.results ?b) =>
        refine (proj1 (search_page_is_sorted_and_bounded
                         (Seed.db_lower_case Seed.ignoring_case)
                         {[ "state" := "NY"; "limit" := "3" ]} [] b _))
    end.
    vm_compute. reflexivity.
Defined.

Lemma upper_char_idempotent (c : ascii) :
  JS.upper_char (JS.upper_char c) = JS.upper_char c.
Proof. by destruct c as [[] [] [] [] [] [] [] []]. Qed.

Lemma toUpperCase_idempotent (s : string) :
  JS.toUpperCase (JS.toUpperCase s) = JS.toUpperCase s.
Proof.
  induction s as [|c s IH]; [done|]. simpl.
  by rewrite upper_char_idempotent, IH.
Qed.

(** The search does not depend on the case of the [state] value of the
    request: the value and its upper case give the same results and the
    same pagination. *)
Theorem search_state_ignores_case
    (db : Database) (query : gmap string string) (state : string)
    (trace : list Storage.Statement) :
  let sent value :=
    search_body (answer (Routes.search_handler db
                           (<["state" := value]> query) trace)) in
  Http.results <$> sent state = Http.results <$> sent (JS.toUpperCase state)
  ∧ Http.pagination <$> sent state
    = Http.pagination <$> sent (JS.toUpperCase state).
Proof.
  intros sent. subst sent. simpl.
  rewrite !search_handler_run. simpl.
  rewrite !lookup_insert_eq.
  rewrite !(lookup_insert_ne _ "state") by done.
  assert (Htruthy : JS.truthy (Some (JS.toUpperCase state))
                    = JS.truthy (Some state)) by by destruct state.
  rewrite Htruthy.
  destruct (negb _ && negb _ && negb _ && negb _); [done|].
  assert (Hconds :
    Routes.search_conditions (query !! "name") (query !! "party")
      (query !! "branch") (Some (JS.toUpperCase state))
    = Routes.search_conditions (query !! "name") (query !! "party")
        (query !! "branch") (Some state)).
  { unfold Routes.search_conditions, Routes.clause. rewrite Htruthy. simpl.
    by rewrite toUpperCase_idempotent. }
  rewrite Hconds. unfold answer. simpl.
  by destruct (Storage.select_search _ _ _ _).
Qed.

(* ================================================================== *)
(** * The router as a whole *)
(* ================================================================== *)

(** What the handlers of a route do to the trace and which statuses they
    answer with. *)
Lemma run_profile db e params query trace :
  ∃ r added,
    Routes.run db e params query trace = (trace ++ added, inr r)
    ∧ (length added ≤ 2)%nat
    ∧ (Http.status r = 200 ∨ Http.status r = 400 ∨ Http.status r = 404
       ∨ Http.status r = 422 ∨ Http.status r = 500)
    ∧ (Http.status r = 400 ∨ Http.status r = 422 → added = []).
Proof.
  destruct e; simpl.
  - rewrite createValidator_zip.
    destruct (query !! "zip") as [z|];
      [destruct (Validation.zip_rule z)|].
    + eexists _, []. rewrite app_nil_r. split; [reflexivity|].
      simpl. auto 10.
    + rewrite zip_handler_run. simpl. rewrite lookup_singleton_eq.
      destruct (Storage.select_geography db (Some z)) as [|g rest].
      * eexists _, [_]. split; [reflexivity|]. simpl.
        split; [lia|]. split; [auto 10|]. by intros [|].
      * eexists _, [_; _]. rewrite <- app_assoc. split; [reflexivity|].
        simpl. split; [lia|]. split; [auto 10|]. by intros [|].
    + eexists _, []. rewrite app_nil_r. split; [reflexivity|].
      simpl. auto 10.
  - rewrite detail_handler_run.
    destruct (Routes.id_number _) as [n|].
    + eexists _, [_]. split; [reflexivity|]. split; [simpl; lia|].
      destruct (Storage.select_detail db n) as [|[|]]; simpl;
        (split; [auto 10|by intros [|]]).
    + eexists _, []. rewrite app_nil_r. split; [reflexivity|].
      simpl. auto 10.
  - rewrite search_handler_run. simpl.
    destruct (negb _ && negb _ && negb _ && negb _).
    + eexists _, []. rewrite app_nil_r. split; [reflexivity|].
      simpl. auto 10.
    + eexists _, [_]. split; [reflexivity|]. split; [simpl; lia|].
      destruct (Storage.select_search _ _ _ _); simpl;
        (split; [auto 10|by intros [|]]).
Qed.

(** A parameter whose matching failed is one that does not decode. *)
Lemma matches_failed p path param :
  Routes.matches p path = Routes.failed param →
  JS.decodeURIComponent param = None.
Proof.
  unfold Routes.matches.
  destruct p, (Routes.chomp path) as [|c [|d rest]]; try done;
    destruct c as [[] [] [] [] [] [] [] []]; try done;
    try (by case_bool_decide).
  destruct (Routes.has_slash _); [done|].
  destruct (JS.decodeURIComponent _) eqn:Hdecode; [done|]. by intros [= <-].
Qed.

Lemma layerError_decode layers path e :
  Routes.layerError layers path = Some e →
  ∃ param, e = Routes.decode_failed param
           ∧ JS.decodeURIComponent param = None.
Proof.
  induction layers as [|[p endpoint] layers IH]; [done|]. simpl.
  destruct (Routes.matches p path) as [| |param] eqn:Hmatch; [done|done|].
  intros [= <-]. exists param. split; [done|]. by eapply matches_failed.
Qed.

(** Whatever the request, the router records the call in the limiter
    first, sends at most two statements, and, when a route matches,
    answers with one of the statuses 200, 400, 404, 422, 429 and 500; a
    request answered 400, 422 or 429 has not reached the storage.  The
    router sends nothing exactly when the limiter accepts the request and
    no route matches its path.  The only error that it hands to the
    application is the one of a route parameter that does not decode,
    and then no handler has run. *)
Theorem router_response_profile
    (db : Database) (store : gmap string (list Z)) (now : Z)
    (req : Routes.Request) :
  let result := Routes.handle db store now req in
  let limited :=
    Validation.rateLimit Routes.limiter (Routes.ip req) now store in
  Routes.store result = limited.2
  ∧ (length (Routes.statements result) ≤ 2)%nat
  ∧ (∀ r, Routes.response result = Some r →
       (Http.status r = 200 ∨ Http.status r = 400 ∨ Http.status r = 404
        ∨ Http.status r = 422 ∨ Http.status r = 429 ∨ Http.status r = 500)
       ∧ (Http.status r = 400 ∨ Http.status r = 422 ∨ Http.status r = 429
          → Routes.statements result = []))
  ∧ (Routes.response result = None
     ↔ limited.1 = Validation.Accept
       ∧ Routes.route Routes.stack (Routes.path req) = None)
  ∧ (∀ e, Routes.error result = Some e →
       Routes.response result = None ∧ Routes.statements result = []
       ∧ ∃ param, e = Routes.decode_failed param
                  ∧ JS.decodeURIComponent param = None).
Proof.
  intros result limited. subst result limited. unfold Routes.handle.
  destruct (Validation.rateLimit _ _ _ _) as [[|r429] store'] eqn:Hlimit.
  - pose proof (layerError_decode Routes.stack (Routes.path req)) as Herror.
    destruct (Routes.route _ _) as [[e params]|]; simpl in *.
    + destruct (run_profile db e params (Routes.query req) [])
        as (r & added & -> & Hlen & Hstatus & Hnone).
      simpl. split; [done|]. split; [done|]. split; [|split; [|done]].
      * intros r' [= <-].
        split; [destruct Hstatus as [?|[?|[?|[?|?]]]]; auto 10|].
        intros [?|[?|Hs]]; [auto..|].
        destruct Hstatus as [?|[?|[?|[?|?]]]]; congruence.
      * split; [done|]. by intros [_ ?].
    + split; [done|]. split; [lia|]. split; [done|]. split; [by split|].
      intros e He. split; [done|]. split; [done|]. by apply Herror.
  - simpl. split; [done|]. split; [lia|]. split; [|split; [|done]].
    + intros r [= <-]. split; [|done].
      unfold Validation.rateLimit in Hlimit. case_decide; [|done].
      injection Hlimit as <- <-. simpl. auto 10.
    + split; [done|]. by intros [? _].
Qed.

(* ================================================================== *)
(** * The transaction helper *)
(* ================================================================== *)

Section Transaction.

Context {R A : Type}.
Variable client : Pool.Client R.

(** A callback does nothing to the client but send statements. *)
Lemma callback_sends (script : Pool.Script R A) : ∀ events,
  ∃ added, (Pool.callback client script events).1 = events ++ added
           ∧ Forall is_sent added.
Proof.
  induction script as [a|error|text next IH]; intros events.
  - exists []. by rewrite app_nil_r.
  - exists []. by rewrite app_nil_r.
  - simpl.
    destruct (IH (Pool.reply client events text) (events ++ [Pool.sent text]))
      as (added & -> & Hsent).
    exists (Pool.sent text :: added). rewrite <- app_assoc. split; [done|].
    constructor; [by exists text|done].
Qed.

Lemma transaction_run (script : Pool.Script R A) (events : list Pool.Event) :
  Pool.transaction (inr client) script events
  = let e0 := events ++ [Pool.connected] in
    let e1 := e0 ++ [Pool.sent "BEGIN"] in
    let rollback ev error :=
      ((ev ++ [Pool.sent "ROLLBACK"]) ++ [Pool.released],
       match Pool.reply client ev "ROLLBACK" with
       | inl error' => inl error'
       | inr _ => inl error
       end) in
    match Pool.reply client e0 "BEGIN" with
    | inl error => rollback e1 error
    | inr _ =>
        match Pool.callback client script e1 with
        | (e2, inl error) => rollback e2 error
        | (e2, inr a) =>
            match Pool.reply client e2 "COMMIT" with
            | inl error => rollback (e2 ++ [Pool.sent "COMMIT"]) error
            | inr _ =>
                ((e2 ++ [Pool.sent "COMMIT"]) ++ [Pool.released], inr a)
            end
        end
    end.
Proof.
  unfold Pool.transaction, Pool.finally, Pool.try_catch, Pool.connect,
    Pool.client_query, Pool.release, Pool.throw, mbind, Pool.Task_bind,
    mret, Pool.Task_ret.
  simpl.
  destruct (Pool.reply client (events ++ [Pool.connected]) "BEGIN");
    simpl.
  - by destruct (Pool.reply client _ "ROLLBACK").
  - destruct (Pool.callback client script _) as [e2 [error|a]]; simpl.
    + by destruct (Pool.reply client _ "ROLLBACK").
    + destruct (Pool.reply client e2 "COMMIT"); simpl; [|done].
      by destruct (Pool.reply client _ "ROLLBACK").
Qed.

End Transaction.

(** However a transaction goes (BEGIN, a statement of the callback, COMMIT
    or ROLLBACK may fail, the callback may throw), the client taken from
    the pool is released exactly once, as the last thing done with it;
    everything between taking and releasing it is a statement.  When the
    pool hands out no client, nothing is done. *)
Theorem transaction_always_releases_the_client
    {R A : Type} (client : Pool.Client R) (script : Pool.Script R A)
    (events : list Pool.Event) (refusal : string) :
  (∃ added,
     (Pool.transaction (inr client) script events).1
     = events ++ [Pool.connected] ++ added ++ [Pool.released]
     ∧ Forall is_sent added)
  ∧ Pool.transaction (inl refusal) script events = (events, inl refusal).
Proof.
  split; [|done]. rewrite transaction_run. simpl.
  assert (Hs : ∀ text, is_sent (Pool.sent text)) by (intros text; by exists text).
  destruct (Pool.reply client (events ++ [Pool.connected]) "BEGIN").
  - exists [Pool.sent "BEGIN"; Pool.sent "ROLLBACK"]. simpl.
    split; [by rewrite <- !app_assoc|]. repeat constructor; apply Hs.
  - destruct (callback_sends client script
                ((events ++ [Pool.connected]) ++ [Pool.sent "BEGIN"]))
      as (added & Hadded & Hsent).
    destruct (Pool.callback client script _) as [e2 [error|a]];
      simpl in Hadded; subst e2.
    + exists (Pool.sent "BEGIN" :: added ++ [Pool.sent "ROLLBACK"]). simpl.
      split; [by rewrite <- !app_assoc|].
      constructor; [apply Hs|]. apply Forall_app. split; [done|].
      repeat constructor; apply Hs.
    + destruct (Pool.reply client _ "COMMIT").
      * exists (Pool.sent "BEGIN"
                :: added ++ [Pool.sent "COMMIT"; Pool.sent "ROLLBACK"]).
        simpl. split; [by rewrite <- !app_assoc|].
        constructor; [apply Hs|]. apply Forall_app. split; [done|].
        repeat constructor; apply Hs.
      * exists (Pool.sent "BEGIN" :: added ++ [Pool.sent "COMMIT"]). simpl.
        split; [by rewrite <- !app_assoc|].
        constructor; [apply Hs|]. apply Forall_app. split; [done|].
        repeat constructor; apply Hs.
Qed.

(** A transaction returns a result only after BEGIN, the whole callback
    and COMMIT have succeeded: the result is the one of the callback, and
    the events are BEGIN, the statements of the callback, COMMIT and the
    release. *)
Theorem transaction_returns_after_commit
    {R A : Type} (client : Pool.Client R) (script : Pool.Script R A)
    (events : list Pool.Event) (result : A) :
  (Pool.transaction (inr client) script events).2 = inr result →
  ∃ statements,
    Pool.callback client script (events ++ [Pool.connected; Pool.sent "BEGIN"])
    = (events ++ [Pool.connected; Pool.sent "BEGIN"] ++ statements,
       inr result)
    ∧ (Pool.transaction (inr client) script events).1
      = events ++ [Pool.connected; Pool.sent "BEGIN"] ++ statements
               ++ [Pool.sent "COMMIT"; Pool.released]
    ∧ (∃ rows, Pool.reply client (events ++ [Pool.connected]) "BEGIN"
               = inr rows)
    ∧ (∃ rows, Pool.reply client
                 (events ++ [Pool.connected; Pool.sent "BEGIN"] ++ statements)
                 "COMMIT" = inr rows).
Proof.
  rewrite transaction_run. simpl.
  destruct (Pool.reply client (events ++ [Pool.connected]) "BEGIN")
    as [error|rows] eqn:Hbegin.
  { by destruct (Pool.reply client _ "ROLLBACK"). }
  rewrite <- (app_assoc events [Pool.connected] [Pool.sent "BEGIN"]). simpl.
  destruct (callback_sends client script
              (events ++ [Pool.connected; Pool.sent "BEGIN"]))
    as (added & Hadded & _).
  destruct (Pool.callback client script _) as [e2 [error|a]];
    simpl in Hadded; subst e2.
  { by destruct (Pool.reply client _ "ROLLBACK"). }
  destruct (Pool.reply client _ "COMMIT") as [error|rows'] eqn:Hcommit.
  { by destruct (Pool.reply client _ "ROLLBACK"). }
  simpl. intros [= ->]. exists added.
  rewrite <- !app_assoc in *. simpl in *.
  split; [done|]. split; [done|]. split; [by exists rows|by exists rows'].
Qed.

Lemma transaction_returns_after_commit_witness :
  Pool.transaction (inr obliging) insert_one []
  = ([Pool.connected; Pool.sent "BEGIN";
      Pool.sent "INSERT INTO geography (zip_code, state) VALUES ('10001', 'NY')";
      Pool.sent "COMMIT"; Pool.released],
     inr 1)
  ∧ ∃ statements,
      Pool.callback obliging insert_one [Pool.connected; Pool.sent "BEGIN"]
      = ([Pool.connected; Pool.sent "BEGIN"] ++ statements, inr 1).
Proof.
  split; [reflexivity|].
  destruct (transaction_returns_after_commit obliging insert_one [] 1)
    as (statements & Hcallback & _); [reflexivity|].
  by exists statements.
Defined.

(** A transaction that throws has sent ROLLBACK as its last statement and
    then released the client, and it never returned a result; when
    ROLLBACK itself fails, the error thrown is the one of ROLLBACK, and
    the error that caused it is lost. *)
Theorem transaction_throws_after_rollback
    {R A : Type} (client : Pool.Client R) (script : Pool.Script R A)
    (events : list Pool.Event) (error : string) :
  (Pool.transaction (inr client) script events).2 = inl error →
  ∃ before,
    (Pool.transaction (inr client) script events).1
    = before ++ [Pool.sent "ROLLBACK"; Pool.released]
    ∧ ∀ error', Pool.reply client before "ROLLBACK" = inl error' →
                error = error'.
Proof.
  rewrite transaction_run. simpl.
  assert (Hrollback : ∀ ev err,
    (match Pool.reply client ev "ROLLBACK" with
     | inl error' => inl error'
     | inr _ => inl err
     end : string + A) = inl error →
    ∃ before,
      (ev ++ [Pool.sent "ROLLBACK"]) ++ [Pool.released]
      = before ++ [Pool.sent "ROLLBACK"; Pool.released]
      ∧ ∀ error', Pool.reply client before "ROLLBACK" = inl error' →
                  error = error').
  { intros ev err Hout. exists ev. rewrite <- app_assoc. split; [done|].
    intros error' Hreply. rewrite Hreply in Hout. by injection Hout. }
  destruct (Pool.reply client (events ++ [Pool.connected]) "BEGIN");
    [apply Hrollback|].
  destruct (Pool.callback client script _) as [e2 [err|a]];
    [apply Hrollback|].
  destruct (Pool.reply client e2 "COMMIT"); [apply Hrollback|done].
Qed.

Lemma transaction_throws_after_rollback_witness :
  Pool.transaction (inr (refusing "COMMIT")) insert_one []
  = ([Pool.connected; Pool.sent "BEGIN";
      Pool.sent "INSERT INTO geography (zip_code, state) VALUES ('10001', 'NY')";
      Pool.sent "COMMIT"; Pool.sent "ROLLBACK"; Pool.released],
     inl "cannot COMMIT")
  ∧ ∃ before,
      (Pool.transaction (inr (refusing "COMMIT")) insert_one []).1
      = before ++ [Pool.sent "ROLLBACK"; Pool.released].
Proof.
  split; [vm_compute; reflexivity|].
  destruct (transaction_throws_after_rollback (refusing "COMMIT") insert_one
              [] "cannot COMMIT")
    as (before & Hbefore & _); [vm_compute; reflexivity|].
  by exists before.
Defined.

(* ================================================================== *)
(** * The name pattern of the search *)
(* ================================================================== *)



Lemma append_nil (s : string) : (EmptyString ++ s)%string = s.
Proof. reflexivity. Qed.

Lemma append_cons (c : ascii) (a s : string) :
  (String c a ++ s)%string = String c (a ++ s)%string.
Proof. reflexivity. Qed.







(* ================================================================== *)
(** * Dispatch of one-segment paths, and the lookup of a stored ZIP code *)
(* ================================================================== *)

Lemma chomp_cons (c : ascii) (r : string) :
  Routes.chomp (String c r)
  = if decide (c = "/"%char ∧ r = EmptyString) then EmptyString
    else String c (Routes.chomp r).
Proof.
  case_decide as H.
  - by destruct H as [-> ->].
  - destruct r as [|d r].
    + destruct c as [[] [] [] [] [] [] [] []]; try reflexivity.
      by destruct H.
    + by destruct c as [[] [] [] [] [] [] [] []].
Qed.

Lemma chomp_without_slash (s : string) :
  Routes.has_slash s = false →
  Routes.chomp s = s ∧ Routes.chomp (s ++ "/")%string = s.
Proof.
  induction s as [|c s IH]; [done|].
  rewrite has_slash_cons. case_decide as Hc; [done|]. intros Hs.
  destruct (IH Hs) as [IH1 IH2].
  rewrite append_cons, !chomp_cons, IH1, IH2.
  split; by rewrite decide_False by (by intros [? _]).
Qed.

Lemma decode_cons (c : ascii) (rest : string) :
  c ≠ "%"%char →
  JS.decode [] (String c rest) = String c <$> JS.decode [] rest.
Proof.
  intros Hc. destruct c as [[] [] [] [] [] [] [] []]; try reflexivity.
  by destruct Hc.
Qed.

(** A string without a percent sign is its own decoding. *)
Lemma decode_escape_free (s : string) :
  escape_free s → JS.decodeURIComponent s = Some s.
Proof.
  unfold escape_free, JS.decodeURIComponent.
  induction s as [|c s IH]; [done|]. simpl JS.all_chars.
  intros [Hc Hs]%andb_true_iff.
  apply negb_true_iff, bool_decide_eq_false in Hc.
  by rewrite decode_cons, IH.
Qed.

(** Every path of one segment, with or without a trailing slash, is a
    path of the route [/:id]: the detail lookup runs with the decoded
    segment as [id], and a segment without a percent sign is its own
    decoding.  When the segment does not decode, no route is taken and
    the router is left with the error of the parameter. *)
Theorem one_segment_paths_reach_the_detail_route (segment path : string) :
  segment ≠ EmptyString → Routes.has_slash segment = false →
  path = ("/" ++ segment)%string ∨ path = ("/" ++ segment ++ "/")%string →
  (∀ id, JS.decodeURIComponent segment = Some id →
     Routes.route Routes.stack path = Some (Routes.detail, {[ "id" := id ]}))
  ∧ (escape_free segment →
     Routes.route Routes.stack path
     = Some (Routes.detail, {[ "id" := segment ]}))
  ∧ (JS.decodeURIComponent segment = None →
     Routes.route Routes.stack path = None
     ∧ Routes.layerError Routes.stack path
       = Some (Routes.decode_failed segment)).
Proof.
  intros Hne Hslash Hpath.
  destruct (chomp_without_slash segment Hslash) as [Hchomp Htrail].
  assert (Hsegment : Routes.chomp path = String "/" segment).
  { destruct Hpath as [-> | ->].
    - rewrite append_cons, append_nil, chomp_cons, Hchomp.
      by rewrite decide_False by (by intros [_ ?]).
    - rewrite append_cons, append_nil, chomp_cons, Htrail.
      rewrite decide_False; [done|]. intros [_ Hempty].
      destruct segment; [done|]. rewrite append_cons in Hempty.
      discriminate Hempty. }
  assert (Hid : Routes.matches (Routes.parameter "id") path
                = match JS.decodeURIComponent segment with
                  | Some id => Routes.matched {[ "id" := id ]}
                  | None => Routes.failed segment
                  end).
  { unfold Routes.matches. rewrite Hsegment.
    destruct segment as [|d rest]; [done|]. by rewrite Hslash. }
  assert (Hroot : Routes.matches Routes.root path = Routes.no_match).
  { unfold Routes.matches. by rewrite Hsegment. }
  assert (Hdecoded : ∀ id, JS.decodeURIComponent segment = Some id →
    Routes.route Routes.stack path = Some (Routes.detail, {[ "id" := id ]})).
  { intros id Hdecode. unfold Routes.stack. cbn [Routes.route].
    by rewrite Hroot, Hid, Hdecode. }
  split; [exact Hdecoded|]. split.
  - intros Hfree. by apply Hdecoded, decode_escape_free.
  - intros Hdecode. unfold Routes.stack.
    cbn [Routes.route Routes.layerError].
    by rewrite Hroot, Hid, Hdecode.
Qed.

Lemma one_segment_paths_reach_the_detail_route_witness :
  Routes.route Routes.stack "/42/" = Some (Routes.detail, {[ "id" := "42" ]})
  ∧ Routes.route Routes.stack "/%31" = Some (Routes.detail, {[ "id" := "1" ]})
  ∧ Routes.route Routes.stack "/%zz" = None
  ∧ Routes.layerError Routes.stack "/%zz"
    = Some (Routes.decode_failed "%zz").
Proof.
  split; [|split].
  - refine (proj1 (proj2 (one_segment_paths_reach_the_detail_route
                            "42" "/42/" _ _ _)) _);
      [discriminate|reflexivity|by right|reflexivity].
  - refine (proj1 (one_segment_paths_reach_the_detail_route
                     "%31" "/%31" _ _ _) "1" _);
      [discriminate|reflexivity|by left|reflexivity].
  - refine (proj2 (proj2 (one_segment_paths_reach_the_detail_route
                            "%zz" "/%zz" _ _ _)) _);
      [discriminate|reflexivity|by left|reflexivity].
Defined.

(** Through the router, a five-digit ZIP code that has a geography row is
    answered 200 with two statements, and the response holds exactly the
    active representatives mapped to the row of that ZIP code, whatever
    else the query contains; [meta] reports no branch filter and no
    inactive representatives. *)
Theorem router_answers_a_stored_zip
    (db : Database) (store : gmap string (list Z)) (now : Z) (ip z : string)
    (query : gmap string string) (g : Geography) :
  query !! "zip" = Some z → Validation.five_digits z = true →
  g ∈ geography db → g_zip_code g = z →
  (Validation.rateLimit Routes.limiter ip now store).1 = Validation.Accept →
  let result :=
    Routes.handle db store now
      {| Routes.ip := ip; Routes.path := "/"; Routes.query := query |} in
  ∃ b g0,
    Routes.response result = Some (Http.json (Http.ZipLookup b))
    ∧ Routes.statements result
      = [Storage.geoQuery (Some z);
         Storage.repQuery (g_id g0) [Storage.is_active_true]]
    ∧ g0 ∈ geography db ∧ g_zip_code g0 = z ∧ Http.zb_zip b = z
    ∧ Http.meta_branch_filter b = "all"
    ∧ Http.meta_include_inactive b = false
    ∧ ∀ x, x ∈ Http.all b
        ↔ ∃ r m, r ∈ representatives db ∧ m ∈ rep_geography_map db
                 ∧ rgm_representative_id m = r_id r
                 ∧ rgm_geography_id m = g_id g0
                 ∧ r_is_active r = Some true
                 ∧ x = Routes.format_rep (r, rgm_jurisdiction_level m).
Proof.
  intros Hz Hfive Hg Hzip Haccept result. subst result.
  unfold Routes.handle. simpl.
  destruct (Validation.rateLimit Routes.limiter ip now store) as [v store'].
  simpl in Haccept. subst v.
  change (Routes.route Routes.stack "/")
    with (Some (Routes.zip_lookup, (∅ : gmap string string))).
  simpl. rewrite createValidator_zip, Hz.
  rewrite (proj2 (zip_rule_passes z) Hfive).
  assert (Hin : g ∈ Storage.select_geography db (Some z)).
  { apply list_elem_of_filter. split; [by rewrite Hzip|done]. }
  destruct (Storage.select_geography db (Some z)) as [|g0 rest] eqn:Hsel;
    [by apply elem_of_nil in Hin|].
  assert (Hrun := zip_handler_run db {[ "zip" := z ]} []).
  simpl in Hrun. rewrite lookup_singleton_eq, Hsel in Hrun.
  rewrite !lookup_singleton_ne in Hrun by done. simpl in Hrun.
  rewrite Hrun. simpl.
  assert (Hg0 : g0 ∈ Storage.select_geography db (Some z)).
  { rewrite Hsel. apply list_elem_of_here. }
  apply list_elem_of_filter in Hg0 as [[= Hz0] Hg0].
  eexists _, g0. split; [reflexivity|]. simpl.
  split; [done|]. split; [done|]. split; [done|]. split; [done|].
  split; [done|]. split; [done|].
  intros x. rewrite list_elem_of_fmap.
  setoid_rewrite select_representatives_elem. split.
  - intros (row & -> & r & m & Hr & Hm & Hid & Hgeo & Hconds & ->).
    simpl in Hconds. rewrite andb_true_r, bool_decide_eq_true in Hconds.
    by exists r, m.
  - intros (r & m & Hr & Hm & Hid & Hgeo & Hactive & ->).
    exists (r, rgm_jurisdiction_level m). split; [done|].
    exists r, m. repeat split; try done.
    simpl. by rewrite andb_true_r, bool_decide_eq_true.
Qed.

Lemma router_answers_a_stored_zip_witness :
  ∃ b, Routes.response
         (Routes.handle Seed.db_with_inactive ∅ 0
            (Seed.get "/" {[ "zip" := "11354"; "include_inactive" := "true" ]}))
       = Some (Http.json (Http.ZipLookup b))
       ∧ Http.id <$> Http.all b = [2; 1; 3; 4]
       ∧ Http.meta_include_inactive b = false.
Proof.
  destruct (router_answers_a_stored_zip Seed.db_with_inactive ∅ 0
              Seed.client "11354"
              {[ "zip" := "11354"; "include_inactive" := "true" ]}
              Seed.flushing)
    as (b & g0 & Hresponse & _ & _ & _ & _ & _ & Hmeta & _).
  - reflexivity.
  - reflexivity.
  - apply list_elem_of_here.
  - reflexivity.
  - reflexivity.
  - exists b. split; [exact Hresponse|]. split; [|exact Hmeta].
    vm_compute in Hresponse. injection Hresponse as <-. reflexivity.
Defined.
